(** * Perceptron linear classifier ([linear_classifier.py])

    A shallow embedding of the class [Linear] and of the parts of NumPy it
    calls, followed by the properties of the training loop, the scorer, the
    data preparation and the seed handling.

    Numbers.  A NumPy [float64] is modelled by an exact rational extended with
    the IEEE special values: [NaN] (the result of [0/0]) and the two
    infinities.  Binary rounding, overflow and the sign of zero are not
    modelled; everything else (propagation of [NaN], comparisons with [NaN]
    being false, rounding to three decimals half-to-even) follows NumPy.

    Arrays.  A two-dimensional array is the list of its rows.  Slices of a
    NumPy array are views of the same buffer; the model keeps the single
    buffer of the normalized data in the object and represents the slices
    [shuffled], [trainSS] and [testSS] by index ranges over it.

    Effects.  Methods that can raise return a [result]; the state of the
    process outside the object (NumPy's random generators, the warnings
    emitted) is passed explicitly as a [World].  Reading the data file, the
    command line and the printed reports are left out: [init] starts from
    the array that [np.loadtxt] returned. *)

From Stdlib Require Import ZArith QArith Qround Qabs Qminmax Lqa Lia String Ascii.
From stdpp Require Import base list.

Local Open Scope Z_scope.

(** ** Extended rationals *)

Inductive num : Type :=
  | Fin (q : Q)
  | Inf (neg : bool)
  | NaN.

Definition Qltb (x y : Q) : bool :=
  match (x ?= y)%Q with Lt => true | _ => false end.

Definition Qzero (x : Q) : bool := Qeq_bool x 0.

Definition nopp (a : num) : num :=
  match a with
  | Fin x => Fin (- x)
  | Inf s => Inf (negb s)
  | NaN => NaN
  end.

Definition nadd (a b : num) : num :=
  match a, b with
  | Fin x, Fin y => Fin (x + y)
  | Fin _, Inf s => Inf s
  | Inf s, Fin _ => Inf s
  | Inf s, Inf t => if Bool.eqb s t then Inf s else NaN
  | _, _ => NaN
  end.

Definition nsub (a b : num) : num := nadd a (nopp b).

Definition nmul (a b : num) : num :=
  match a, b with
  | Fin x, Fin y => Fin (x * y)
  | Fin x, Inf s => if Qzero x then NaN else Inf (xorb s (Qltb x 0))
  | Inf s, Fin y => if Qzero y then NaN else Inf (xorb s (Qltb y 0))
  | Inf s, Inf t => Inf (xorb s t)
  | _, _ => NaN
  end.

(** Division: [0/0] is [NaN], [x/0] is an infinity of the sign of [x]. *)
Definition ndiv (a b : num) : num :=
  match a, b with
  | Fin x, Fin y =>
      if Qzero y then (if Qzero x then NaN else Inf (Qltb x 0))
      else Fin (x / y)
  | Fin _, Inf _ => Fin 0
  | Inf s, Fin y => Inf (xorb s (Qltb y 0))
  | _, _ => NaN
  end.

(** [a < b]; false as soon as one side is [NaN]. *)
Definition nlt (a b : num) : bool :=
  match a, b with
  | Fin x, Fin y => Qltb x y
  | Fin _, Inf s => negb s
  | Inf s, Fin _ => s
  | Inf s, Inf t => s && negb t
  | _, _ => false
  end.

(** [a == b]; [NaN] equals nothing. *)
Definition neqb (a b : num) : bool :=
  match a, b with
  | Fin x, Fin y => Qeq_bool x y
  | Inf s, Inf t => Bool.eqb s t
  | _, _ => false
  end.


(** The same value (an equivalence, unlike [neqb]): rationals up to [Qeq]. *)
Definition same_num (a b : num) : Prop :=
  match a, b with
  | Fin x, Fin y => (x == y)%Q
  | Inf s, Inf t => s = t
  | NaN, NaN => True
  | _, _ => False
  end.

(** Rounding to the nearest integer, ties to the even one: Python's
    [round(x)] and NumPy's [rint]. *)
Definition round_half_even (x : Q) : Z :=
  let f := Qfloor x in
  match (x - inject_Z f ?= 1 # 2)%Q with
  | Lt => f
  | Gt => f + 1
  | Eq => if Z.even f then f else f + 1
  end.

(** [np.round(x, 3)]: scale by [10^3], round, scale back. *)
Definition Qround3 (x : Q) : Q := inject_Z (round_half_even (x * 1000)) / 1000.

Definition np_round3 (a : num) : num :=
  match a with
  | Fin x => Fin (Qround3 x)
  | other => other
  end.

Definition np_sum (l : list num) : num := foldl nadd (Fin 0) l.

(** [np.mean] of a one-dimensional sequence: the sum over the length. *)
Definition np_mean (l : list num) : num :=
  ndiv (np_sum l) (Fin (inject_Z (Z.of_nat (length l)))).

(** ** Python values, truthiness, exceptions *)

Inductive pyval : Type :=
  | PyNone
  | PyBool (b : bool)
  | PyInt (z : Z)
  | PyFloat (x : num)
  | PyStr (s : string).

(** [if v:] *)
Definition truthy (v : pyval) : bool :=
  match v with
  | PyNone => false
  | PyBool b => b
  | PyInt z => negb (z =? 0)
  | PyFloat x => negb (neqb x (Fin 0))
  | PyStr s => negb (String.eqb s EmptyString)
  end.

(** [isinstance(v, int)]: [bool] is a subclass of [int]. *)
Definition isinstance_int (v : pyval) : bool :=
  match v with PyInt _ | PyBool _ => true | _ => false end.

Definition isinstance_str (v : pyval) : bool :=
  match v with PyStr _ => true | _ => false end.

Definition lower_ascii (c : ascii) : ascii :=
  let n := nat_of_ascii c in
  if ((65 <=? n) && (n <=? 90))%nat then ascii_of_nat (n + 32) else c.

Fixpoint str_lower (s : string) : string :=
  match s with
  | EmptyString => EmptyString
  | String c r => String (lower_ascii c) (str_lower r)
  end.

(** [SystemExit n] is the exit of [train], whose message is built from
    [max_epochs]: Stopping for non-convergence after [n] max_epochs, followed
    by the advice to change the parameters. *)
Inductive exn : Type :=
  | ValueError (msg : string)
  | TypeError (msg : string)
  | IndexError
  | SystemExit (n : Z).

Inductive result (A : Type) : Type :=
  | Ok (a : A)
  | Raise (e : exn).
Arguments Ok {A} a.
Arguments Raise {A} e.

#[global] Instance result_ret : MRet result := fun A a => Ok a.

#[global] Instance result_bind : MBind result := fun A B k r =>
  match r with
  | Ok a => k a
  | Raise e => Raise e
  end.

(** A [for] loop over [l] that threads an accumulator and stops at the first
    exception. *)
Fixpoint foldM {A S} (f : S → A → result S) (s : S) (l : list A) : result S :=
  match l with
  | [] => Ok s
  | a :: r => s' ← f s a; foldM f s' r
  end.

(** ** Arrays *)

(** Elementwise [f] on two one-dimensional operands with NumPy's
    broadcasting: equal lengths pair up, a length-one operand is stretched,
    anything else raises. *)
Definition broadcast2 (f : num → num → num) (a b : list num)
  : result (list num) :=
  if (length a =? length b)%nat then Ok (zip_with f a b)
  else match a, b with
       | [x], _ => Ok (map (f x) b)
       | _, [y] => Ok (map (fun x => f x y) a)
       | _, _ => Raise (ValueError "operands could not be broadcast together")
       end.

(** [a.shape[1]] of a two-dimensional array with at least one row. *)
Definition shape1 {A} (a : list (list A)) : nat :=
  match a with
  | [] => 0%nat
  | r :: _ => length r
  end.

(** [row[-1]] *)
Definition last_elem (row : list num) : result num :=
  match last row with
  | Some x => Ok x
  | None => Raise IndexError
  end.

(** [row[0:-1]] *)
Definition but_last (row : list num) : list num := removelast row.

(** A slice of the buffer of the normalized data: rows [vstart] (included)
    to [vstop] (excluded). *)
Record view : Type := { vstart : nat; vstop : nat }.

Definition view_len (v : view) : nat := (vstop v - vstart v)%nat.

Definition read_view {A} (v : view) (buf : list A) : list A :=
  take (view_len v) (drop (vstart v) buf).

(** [a[:]] of an array of [n] rows. *)
Definition full_view (n : nat) : view := {| vstart := 0; vstop := n |}.

(** Python's normalisation of a slice bound [i] for a sequence of length [n]:
    negative bounds count from the end, and the result is clamped to
    [0..n]. *)
Definition clamp_index (i : Z) (n : nat) : nat :=
  if i <? 0 then Z.to_nat (Z.max 0 (i + Z.of_nat n))
  else Z.to_nat (Z.min i (Z.of_nat n)).

(** [v[:i]] and [v[i:]] *)
Definition slice_to (i : Z) (v : view) : view :=
  {| vstart := vstart v;
     vstop := (vstart v + clamp_index i (view_len v))%nat |}.

Definition slice_from (i : Z) (v : view) : view :=
  {| vstart := (vstart v + clamp_index i (view_len v))%nat;
     vstop := vstop v |}.

(** ** The process state outside the object

    [legacy_draws] and [legacy_pos] stand for NumPy's global generator (the
    one behind [np.random.shuffle]), which is not part of the repository:
    the raw value behind its [k]-th bounded draw and the number of draws
    made so far.  [os_entropy] is the entropy that an unseeded
    [default_rng] reads from the operating system.  [warnings] is the list
    of the messages passed to [warnings.warn], oldest first. *)
Record World : Type := {
  legacy_draws : nat → nat;
  legacy_pos : nat;
  os_entropy : nat → Z;
  entropy_pos : nat;
  warnings : list string
}.

(** [random_interval(max)]: a draw in [0..max] from the global generator. *)
Definition random_interval (w : World) (max : nat) : nat * World :=
  ((legacy_draws w (legacy_pos w) mod (max + 1))%nat,
   {| legacy_draws := legacy_draws w; legacy_pos := S (legacy_pos w);
      os_entropy := os_entropy w; entropy_pos := entropy_pos w;
      warnings := warnings w |}).

Definition take_entropy (w : World) : Z * World :=
  (os_entropy w (entropy_pos w),
   {| legacy_draws := legacy_draws w; legacy_pos := legacy_pos w;
      os_entropy := os_entropy w; entropy_pos := S (entropy_pos w);
      warnings := warnings w |}).

Definition warn (msg : string) (w : World) : World :=
  {| legacy_draws := legacy_draws w; legacy_pos := legacy_pos w;
     os_entropy := os_entropy w; entropy_pos := entropy_pos w;
     warnings := warnings w ++ [msg] |}.

(** [buf = x[j]; x[j] = x[i]; x[i] = buf] *)
Definition swap_rows {A} (x : list A) (i j : nat) : list A :=
  match x !! i, x !! j with
  | Some xi, Some xj => <[i := xj]> (<[j := xi]> x)
  | _, _ => x
  end.

(** The loop of [np.random.shuffle] on an array: [i] runs from [n-1] down to
    [1], and row [i] is exchanged with row [j], [j] drawn in [0..i]. *)
Fixpoint shuffle_from {A} (i : nat) (w : World) (x : list A)
  : list A * World :=
  match i with
  | O => (x, w)
  | S i' =>
      let '(j, w') := random_interval w i in
      shuffle_from i' w' (swap_rows x i j)
  end.

Definition np_random_shuffle {A} (w : World) (x : list A) : list A * World :=
  shuffle_from (length x - 1) w x.

(** ** The object

    The attributes of a [Linear] instance.  [norm] is the buffer of the
    normalized data; [shuffled], [trainSS] and [testSS] are slices of it and
    are assigned by [initialize] with [shuffle=True], which [__init__] always
    runs; [epoch_num], [train_accs] and the four scores are assigned by
    [train].  [threshold] holds the percentage. *)
Record Linear : Type := {
  training : Q;
  threshold : Q;
  eta : Q;
  seed : pyval;
  max_epochs : Z;
  verbose : bool;
  data : list (list Q);
  norm : list (list num);
  shuffled : view;
  trainSS : view;
  testSS : view;
  weights : list num;
  epoch_num : Z;
  train_accs : list num;
  trainAcc : num;
  trainErr : num;
  testAcc : num;
  testErr : num
}.

Definition with_config (training' threshold' eta' : Q) (seed' : pyval)
    (verbose' : bool) (m : Linear) : Linear :=
  {| training := training'; threshold := threshold'; eta := eta';
     seed := seed'; max_epochs := max_epochs m; verbose := verbose';
     data := data m; norm := norm m; shuffled := shuffled m;
     trainSS := trainSS m; testSS := testSS m; weights := weights m;
     epoch_num := epoch_num m; train_accs := train_accs m;
     trainAcc := trainAcc m; trainErr := trainErr m;
     testAcc := testAcc m; testErr := testErr m |}.

Definition with_split (norm' : list (list num))
    (shuffled' trainSS' testSS' : view) (m : Linear) : Linear :=
  {| training := training m; threshold := threshold m; eta := eta m;
     seed := seed m; max_epochs := max_epochs m; verbose := verbose m;
     data := data m; norm := norm'; shuffled := shuffled';
     trainSS := trainSS'; testSS := testSS'; weights := weights m;
     epoch_num := epoch_num m; train_accs := train_accs m;
     trainAcc := trainAcc m; trainErr := trainErr m;
     testAcc := testAcc m; testErr := testErr m |}.

Definition with_weights (weights' : list num) (m : Linear) : Linear :=
  {| training := training m; threshold := threshold m; eta := eta m;
     seed := seed m; max_epochs := max_epochs m; verbose := verbose m;
     data := data m; norm := norm m; shuffled := shuffled m;
     trainSS := trainSS m; testSS := testSS m; weights := weights';
     epoch_num := epoch_num m; train_accs := train_accs m;
     trainAcc := trainAcc m; trainErr := trainErr m;
     testAcc := testAcc m; testErr := testErr m |}.

Definition with_run (epoch_num' : Z) (train_accs' : list num)
    (trainAcc' trainErr' testAcc' testErr' : num) (m : Linear) : Linear :=
  {| training := training m; threshold := threshold m; eta := eta m;
     seed := seed m; max_epochs := max_epochs m; verbose := verbose m;
     data := data m; norm := norm m; shuffled := shuffled m;
     trainSS := trainSS m; testSS := testSS m; weights := weights m;
     epoch_num := epoch_num'; train_accs := train_accs';
     trainAcc := trainAcc'; trainErr := trainErr';
     testAcc := testAcc'; testErr := testErr' |}.

(** ** Setters *)

Definition set_train_subset (fraction : Q) (self : Linear) : Linear :=
  with_config fraction (threshold self) (eta self) (seed self) (verbose self)
    self.

Definition set_threshold (threshold' : Q) (self : Linear) : Linear :=
  with_config (training self) (threshold' * 100) (eta self) (seed self)
    (verbose self) self.

Definition set_lr (lr : Q) (self : Linear) : Linear :=
  with_config (training self) (threshold self) lr (seed self) (verbose self)
    self.

Definition set_verbose (verbose' : bool) (self : Linear) : Linear :=
  with_config (training self) (threshold self) (eta self) (seed self) verbose'
    self.

Definition store_seed (seed' : pyval) (self : Linear) : Linear :=
  with_config (training self) (threshold self) (eta self) seed' (verbose self)
    self.

Definition seed_error : string :=
  "'seed' must be either an int or string string 'None' to set to NoneValue".

Definition seed_warning : string :=
  "Random seed has been set and may be different than what was used to initiate this Linear instance.".

Definition set_seed (seed' : pyval) (self : Linear) (w : World)
  : result (Linear * World) :=
  self' ←
    (if isinstance_int seed' then Ok (store_seed seed' self)
     else if isinstance_str seed' &&
             match seed' with
             | PyStr s => String.eqb (str_lower s) "none"
             | _ => false
             end
          then Ok (store_seed PyNone self)
          else Raise (ValueError seed_error));
  Ok (self', warn seed_warning w).

(** ** Inference and scoring *)

Definition threshold_at_zero (ws : num) : Z := if nlt (Fin 0) ws then 1 else 0.

(** [run_model]: [ws = np.sum(weights * examples, axis=1)], [h = ws > 0].
    The weights are a one-dimensional array at first and a one-row array
    once [adjust_weights] has run; both are the list of their values here.
    An array without rows has no width in this representation, so a
    mismatch of widths shows on arrays of at least one row only. *)
Definition run_model (self : Linear) (weights : list num)
    (examples : list (list num)) : result (list Z) :=
  mapM (fun ex => prod ← broadcast2 nmul weights ex;
                  Ok (threshold_at_zero (np_sum prod))) examples.

Definition Zbool (b : bool) : Z := if b then 1 else 0.

Definition Zsum (l : list Z) : Z := foldr Z.add 0 l.

Definition percent (count : Z) (n : nat) : num :=
  np_round3 (nmul (ndiv (Fin (inject_Z count)) (Fin (inject_Z (Z.of_nat n))))
                  (Fin 100)).

Definition accuracy (self : Linear) (weights : list num)
    (examples : list (list num)) : result num :=
  h ← run_model self weights (map but_last examples);
  labels ← mapM last_elem examples;
  let num_correct :=
    Zsum (zip_with (fun l hi => Zbool (neqb l (Fin (inject_Z hi)))) labels h) in
  Ok (percent num_correct (length examples)).

Definition error (self : Linear) (weights : list num)
    (examples : list (list num)) : result num :=
  h ← run_model self weights (map but_last examples);
  labels ← mapM last_elem examples;
  let num_incorrect :=
    Zsum (zip_with (fun l hi => Zbool (negb (neqb l (Fin (inject_Z hi)))))
            labels h) in
  Ok (percent num_incorrect (length examples)).

Definition test (traindata : bool) (self : Linear) : result (num * num) :=
  let ds := read_view (if traindata then trainSS self else testSS self)
              (norm self) in
  acc ← accuracy self (weights self) ds;
  err ← error self (weights self) ds;
  Ok (acc, err).

(** [adjust_weights]: [att] is the one-row array of the attributes, [hyp] the
    one-element array returned by [run_model]. *)
Definition adjust_weights (att : list num) (tar : num) (hyp : list Z)
    (self : Linear) : result Linear :=
  let scaled :=
    map (fun h => nmul (Fin (eta self)) (nsub tar (Fin (inject_Z h)))) hyp in
  delta ← broadcast2 nmul scaled att;
  weights' ← broadcast2 nadd (weights self) delta;
  Ok (with_weights weights' self).

(** ** Data preparation *)

(** [a.max(axis=0)] and [a.min(axis=0)]; NumPy refuses an array without
    rows. *)
Definition col_reduce (f : Q → Q → Q) (a : list (list Q)) : result (list Q) :=
  match a with
  | [] => Raise (ValueError "zero-size array to reduction operation")
  | r :: rs => Ok (foldl (zip_with f) r rs)
  end.

Definition normalize_entry (x mn mx : Q) : num :=
  ndiv (nsub (Fin x) (Fin mn)) (nsub (Fin mx) (Fin mn)).

Definition normalize_row (MIN MAX row : list Q) : list num :=
  zip_with (fun x '(mn, mx) => normalize_entry x mn mx) row (zip MIN MAX).

(** The normalization of [__init__] followed by the insertion of the bias
    column: [(data - MIN) / (MAX - MIN)], then a column of ones in front. *)
Definition normalize (data : list (list Q)) : result (list (list num)) :=
  MAX ← col_reduce Qmax data;
  MIN ← col_reduce Qmin data;
  Ok (map (fun row => Fin 1 :: normalize_row MIN MAX row) data).

Section WithGenerator.

(** NumPy's seeded generator is not part of the repository.
    [seeded_doubles s] is the stream of doubles that
    [np.random.default_rng(seed=s).random] delivers for a seed [s] other
    than [None], or the exception with which NumPy refuses [s]. *)
Variable seeded_doubles : pyval → result (nat → Q).

(** [np.random.default_rng(seed=s)]: without a seed the generator is seeded
    from the operating system's entropy. *)
Definition default_rng (s : pyval) (w : World)
  : result ((nat → Q) * World) :=
  match s with
  | PyNone =>
      let '(e, w') := take_entropy w in
      g ← seeded_doubles (PyInt e); Ok (g, w')
  | _ => g ← seeded_doubles s; Ok (g, w)
  end.

(** [rng.random(n)] *)
Definition rng_random (g : nat → Q) (n : Z) : result (list num) :=
  if n <? 0 then Raise (ValueError "negative dimensions are not allowed")
  else Ok (map (fun k => Fin (g k)) (seq 0 (Z.to_nat n))).

Definition shuffle_and_split (self : Linear) (w : World) : Linear * World :=
  let '(buf, w') := np_random_shuffle w (norm self) in
  let shuffled' := full_view (length buf) in
  let trainInd :=
    round_half_even
      (training self * inject_Z (Z.of_nat (view_len shuffled'))) in
  (with_split buf shuffled' (slice_to trainInd shuffled')
     (slice_from trainInd shuffled') self, w').

Definition initialize (shuffle : bool) (self : Linear) (w : World)
  : result (Linear * World) :=
  let '(self1, w1) :=
    if shuffle then shuffle_and_split self w else (self, w) in
  '(wgts_rng, w2) ← default_rng (seed self1) w1;
  let num_weights := Z.of_nat (shape1 (norm self1)) - 1 in
  weights' ← rng_random wgts_rng num_weights;
  Ok (with_weights weights' self1, w2).

Definition reset (shuffle : bool) (seed' : pyval) (self : Linear) (w : World)
  : result (Linear * World) :=
  '(self1, w1) ←
    (if truthy seed' then set_seed seed' self w else Ok (self, w));
  initialize shuffle self1 w1.

(** [__init__] on the array that [np.loadtxt] returned. *)
Definition init (data' : list (list Q)) (train threshold' lr : Q)
    (seed' : pyval) (max_epochs' : Z) (verbose' : bool) (w : World)
  : result (Linear * World) :=
  norm' ← normalize data';
  initialize true
    {| training := train; threshold := threshold' * 100; eta := lr;
       seed := seed'; max_epochs := max_epochs'; verbose := verbose';
       data := data'; norm := norm'; shuffled := full_view 0;
       trainSS := full_view 0; testSS := full_view 0; weights := [];
       epoch_num := 0; train_accs := []; trainAcc := NaN; trainErr := NaN;
       testAcc := NaN; testErr := NaN |} w.

End WithGenerator.

(** ** Training *)

(** The body of [for ex in self.trainSS]. *)
Definition train_example (self : Linear) (ex : list num) : result Linear :=
  let attributes := but_last ex in
  classLabel ← last_elem ex;
  hypothesis ← run_model self (weights self) [attributes];
  adjust_weights attributes classLabel hypothesis self.

(** [self.train_accs[-3:]] *)
Definition last3 {A} (l : list A) : list A := drop (length l - 3) l.

(** One evaluation of the [while] condition and, when it holds, one run of
    the loop body. *)
Inductive step : Type :=
  | Stop (self : Linear)
  | Next (self : Linear)
  | Abort (e : exn).

(** [self.epoch_num += 1] *)
Definition count_epoch (self : Linear) : Linear :=
  with_run (epoch_num self + 1) (train_accs self) (trainAcc self)
    (trainErr self) (testAcc self) (testErr self) self.

Definition train_step (self : Linear) : step :=
  if nlt (np_mean (last3 (train_accs self))) (Fin (threshold self)) then
    let self1 := count_epoch self in
    if epoch_num self1 >? max_epochs self1 then
      Abort (SystemExit (max_epochs self1))
    else
      match
        self2 ← foldM train_example self1
                  (read_view (trainSS self1) (norm self1));
        '(acc, err) ← test true self2;
        Ok (with_run (epoch_num self2) (train_accs self2 ++ [acc]) acc err
              (testAcc self2) (testErr self2) self2)
      with
      | Ok self3 => Next self3
      | Raise e => Abort e
      end
  else Stop self.

(** The [while] loop.  The second component counts the evaluations of the
    loop condition; [None] means that [fuel] iterations were not enough,
    which [train] never meets. *)
Fixpoint train_loop (fuel : nat) (self : Linear)
  : option (result Linear * nat) :=
  match fuel with
  | O => None
  | S fuel' =>
      match train_step self with
      | Stop self' => Some (Ok self', 1%nat)
      | Abort e => Some (Raise e, 1%nat)
      | Next self' =>
          match train_loop fuel' self' with
          | Some (r, checks) => Some (r, S checks)
          | None => None
          end
      end
  end.

(** The state with which [train] enters the loop. *)
Definition train_entry (self : Linear) : result Linear :=
  let self0 :=
    with_run 0 [] (trainAcc self) (trainErr self) (testAcc self)
      (testErr self) self in
  '(acc, err) ← test true self0;
  Ok (with_run (epoch_num self0) (train_accs self0 ++ [acc]) acc err
        (testAcc self0) (testErr self0) self0).

(** What follows the loop: the final scores on the testing subset. *)
Definition train_exit (self : Linear) : result Linear :=
  '(acc, err) ← test false self;
  Ok (with_run (epoch_num self) (train_accs self) (trainAcc self)
        (trainErr self) acc err self).

Definition train_fuel (self : Linear) : nat :=
  Z.to_nat (max_epochs self) + 1.

Definition train (self : Linear) : option (result Linear * nat) :=
  match train_entry self with
  | Raise e => Some (Raise e, 0%nat)
  | Ok self0 =>
      match train_loop (train_fuel self0) self0 with
      | Some (Ok self1, checks) => Some (train_exit self1, checks)
      | other => other
      end
  end.

(** ** Reference definitions, written from the specification *)

(** The weighted sum of one example. *)
Definition weighted_sum (w x : list num) : num := np_sum (zip_with nmul w x).


(** The hypothesis: 1 if the weighted sum is strictly positive, else 0. *)
Definition hypothesis_for (w atts : list num) : Z :=
  if nlt (Fin 0) (weighted_sum w atts) then 1 else 0.

(** The perceptron rule on one example:
    [w_i + learning_rate * (true_label - hypothesis) * attribute_i]. *)
Definition delta_rule (lr : Q) (w atts : list num) (label : num) : list num :=
  let h := hypothesis_for w atts in
  zip_with
    (fun wi ai => nadd wi (nmul (nmul (Fin lr) (nsub label (Fin (inject_Z h)))) ai))
    w atts.

Definition label_of (ex : list num) : num := default NaN (last ex).

(** One epoch, online: the examples in order, each on the weights that the
    previous one left. *)
Definition online_epoch (lr : Q) (w : list num) (exs : list (list num))
  : list num :=
  foldl (fun w' ex => delta_rule lr w' (but_last ex) (label_of ex)) w exs.

(** ** Concrete instances used in the examples *)

(** An object with the given learning rate and weights and no data. *)
Definition bare_model (lr : Q) (w : list num) : Linear :=
  {| training := 3 # 4; threshold := 90; eta := lr; seed := PyNone;
     max_epochs := 100; verbose := false; data := []; norm := [];
     shuffled := full_view 0; trainSS := full_view 0; testSS := full_view 0;
     weights := w; epoch_num := 0; train_accs := []; trainAcc := NaN;
     trainErr := NaN; testAcc := NaN; testErr := NaN |}.

(** An example is classified correctly when its label equals the
    hypothesis computed from its attributes. *)
Definition classified_correctly (w ex : list num) : bool :=
  neqb (label_of ex) (Fin (inject_Z (hypothesis_for w (but_last ex)))).

Definition matches (w : list num) (exs : list (list num)) : nat :=
  length (List.filter (classified_correctly w) exs).

Definition mismatches (w : list num) (exs : list (list num)) : nat :=
  length (List.filter (fun ex => negb (classified_correctly w ex)) exs).

(** [m] is the minimum (maximum) of column [j] of [data]: it occurs in the
    column and bounds it. *)
Definition column_min (data : list (list Q)) (j : nat) (m : Q) : Prop :=
  (∃ row, row ∈ data ∧ row !! j = Some m)
  ∧ ∀ row x, row ∈ data → row !! j = Some x → (m <= x)%Q.

Definition column_max (data : list (list Q)) (j : nat) (m : Q) : Prop :=
  (∃ row, row ∈ data ∧ row !! j = Some m)
  ∧ ∀ row x, row ∈ data → row !! j = Some x → (x <= m)%Q.

(** A stand-in for NumPy's seeded generator, used to run the examples: it
    accepts non-negative integers and delivers [1/(seed+k+2)] as [k]-th
    double. *)
Definition example_doubles (s : pyval) : result (nat → Q) :=
  match s with
  | PyInt z =>
      if z <? 0 then Raise (ValueError "expected non-negative integer")
      else Ok (fun k => 1 # Pos.of_nat (Z.to_nat z + k + 2))
  | _ => Raise (TypeError "SeedSequence expects int or sequence of ints")
  end.

(** A process whose global generator delivers the draws [draws]. *)
Definition example_world (draws : nat → nat) : World :=
  {| legacy_draws := draws; legacy_pos := 0; os_entropy := fun _ => 7;
     entropy_pos := 0; warnings := [] |}.

Definition example_data : list (list Q) :=
  [[1; 5; 0]; [2; 3; 1]; [3; 4; 1]; [0; 1; 0]]%Q.

(** The window of the stopping rule: the last three entries of the history,
    or the whole history when it has fewer than three. *)
Definition trailing_window (accs : list Q) : list Q :=
  if (length accs <? 3)%nat then accs else drop (length accs - 3) accs.

Definition Qmean (l : list Q) : Q :=
  foldr Qplus 0%Q l / inject_Z (Z.of_nat (length l)).

Definition trailing_mean (accs : list Q) : Q := Qmean (trailing_window accs).

(** The object built from [example_data] with seed 3 and an epoch budget of
    [budget]. *)
Definition example_model (budget : Z) : Linear :=
  match
    init example_doubles example_data (3 # 4) (9 # 10) (1 # 10) (PyInt 3)
      budget false (example_world (fun k => k))
  with
  | Ok (m, _) => m
  | Raise _ => bare_model 0 []
  end.



(** ** The command line entry point *)



Section Program.

Variable seeded_doubles : pyval → result (nat → Q).


End Program.

(** ** Further reference definitions *)

(** The shape that [initialize] gives an object: every row of the normalized
    data holds one value per weight, and the label. *)
Definition well_shaped (s : Linear) : Prop :=
  Forall (fun ex => length ex = S (length (weights s))) (norm s).

(** The exceptions of the array operations. *)
Definition shape_error (e : exn) : Prop :=
  match e with
  | ValueError _ | IndexError => True
  | _ => False
  end.

(** Two objects with the same configuration, data and split: they differ at
    most in the weights and in what [train] records. *)
Definition same_setup (s s' : Linear) : Prop :=
  training s' = training s ∧ threshold s' = threshold s ∧ eta s' = eta s
  ∧ seed s' = seed s ∧ max_epochs s' = max_epochs s
  ∧ verbose s' = verbose s ∧ data s' = data s ∧ norm s' = norm s
  ∧ shuffled s' = shuffled s ∧ trainSS s' = trainSS s
  ∧ testSS s' = testSS s.

(** What [train] keeps true of the object at every evaluation of the loop
    condition: the history has one entry per epoch and the entry made at
    entry, and the scores on the training subset are those of the current
    weights. *)
Definition scores_current (s : Linear) : Prop :=
  Z.of_nat (length (train_accs s)) = epoch_num s + 1
  ∧ last (train_accs s) = Some (trainAcc s)
  ∧ test true s = Ok (trainAcc s, trainErr s).

(** A history of percentages. *)
Definition percent_history (s : Linear) : Prop :=
  read_view (trainSS s) (norm s) ≠ []
  ∧ ∃ accs, accs ≠ [] ∧ train_accs s = map Fin accs
            ∧ Forall (fun a => 0 <= a <= 100)%Q accs.

(** [example_data] with a training fraction of minus one quarter, which
    Python's slicing reads from the end. *)
Definition negative_fraction_model : Linear :=
  match
    init example_doubles example_data (- (1 # 4)) (9 # 10) (1 # 10) (PyInt 3)
      5 false (example_world (fun k => k))
  with
  | Ok (m, _) => m
  | Raise _ => bare_model 0 []
  end.

(** * Properties *)

(** ** Numbers *)

Lemma Qltb_lt (x y : Q) : Qltb x y = true ↔ (x < y)%Q.
Proof.
  unfold Qltb. rewrite Qlt_alt. destruct (x ?= y)%Q; split; congruence.
Qed.

Lemma Qltb_ge (x y : Q) : Qltb x y = false ↔ (y <= x)%Q.
Proof.
  rewrite <- Bool.not_true_iff_false, Qltb_lt. split.
  - apply Qnot_lt_le.
  - apply Qle_not_lt.
Qed.

Lemma Qzero_true (x : Q) : Qzero x = true ↔ (x == 0)%Q.
Proof. apply Qeq_bool_iff. Qed.

Lemma Qzero_false (x : Q) : Qzero x = false ↔ ¬ (x == 0)%Q.
Proof. rewrite <- Qzero_true. symmetry. apply Bool.not_true_iff_false. Qed.

#[global] Instance same_num_refl : Reflexive same_num.
Proof. intros [q| |]; simpl; auto. reflexivity. Qed.

#[global] Instance same_num_sym : Symmetric same_num.
Proof. intros [x|s|] [y|t|]; simpl; auto. intros H. now symmetry. Qed.

#[global] Instance same_num_trans : Transitive same_num.
Proof.
  intros [x|s|] [y|t|] [z|u|]; simpl; try tauto; try congruence.
  intros H1 H2. now rewrite H1.
Qed.

(** Rounding half to even moves a number by at most one half. *)
Lemma round_half_even_near (x : Q) :
  (x - (1 # 2) <= inject_Z (round_half_even x) <= x + (1 # 2))%Q.
Proof.
  unfold round_half_even.
  pose proof (Qfloor_le x) as Hlo. pose proof (Qlt_floor x) as Hhi.
  rewrite inject_Z_plus in Hhi. change (inject_Z 1) with 1%Q in Hhi.
  set (f := Qfloor x) in *.
  destruct (x - inject_Z f ?= 1 # 2)%Q eqn:E.
  - apply Qeq_alt in E.
    destruct (Z.even f); [|rewrite inject_Z_plus; change (inject_Z 1) with 1%Q];
      lra.
  - apply Qlt_alt in E. lra.
  - apply Qgt_alt in E. rewrite inject_Z_plus. change (inject_Z 1) with 1%Q.
    lra.
Qed.


(** ** Broadcasting *)

Lemma broadcast2_same_length f (a b : list num) :
  length a = length b → broadcast2 f a b = Ok (zip_with f a b).
Proof.
  intros H. unfold broadcast2. now rewrite H, Nat.eqb_refl.
Qed.

(** A one-element operand against a row: the element is applied along the
    row, whatever the length of the row. *)
Lemma broadcast2_scalar_l f (s : num) (b : list num) :
  broadcast2 f [s] b = Ok (map (f s) b).
Proof.
  unfold broadcast2. destruct (Nat.eqb_spec (length [s]) (length b)) as [E|E].
  - destruct b as [|y [|? ?]]; simpl in E; try discriminate. reflexivity.
  - reflexivity.
Qed.

(** ** Inference *)

Lemma np_sum_fin_from (a : Q) (l : list Q) :
  ∃ q, foldl nadd (Fin a) (map Fin l) = Fin q ∧ (q == a + foldr Qplus 0 l)%Q.
Proof.
  revert a. induction l as [|x l IH]; intros a; simpl.
  - exists a. split; [reflexivity | ring].
  - destruct (IH (a + x)%Q) as (q & Hq & E). exists q. split; [exact Hq|].
    rewrite E. ring.
Qed.


Lemma run_model_ok (self : Linear) (w : list num) (exs : list (list num)) :
  Forall (fun ex => length ex = length w) exs →
  run_model self w exs = Ok (map (hypothesis_for w) exs).
Proof.
  induction 1 as [|ex exs Hlen _ IH]; [reflexivity|].
  unfold run_model in *. simpl. rewrite broadcast2_same_length by auto.
  simpl. rewrite IH. reflexivity.
Qed.



(** ** The weight update *)

Lemma but_last_snoc (atts : list num) (label : num) :
  but_last (atts ++ [label]) = atts.
Proof. apply removelast_last. Qed.

Lemma split_last_row (ex : list num) (k : nat) :
  length ex = S k →
  ex = but_last ex ++ [label_of ex] ∧ length (but_last ex) = k
  ∧ last ex = Some (label_of ex).
Proof.
  intros H. destruct (exists_last (l := ex)) as (atts & label & ->).
  { intros ->. discriminate. }
  unfold label_of. rewrite last_snoc, but_last_snoc. simpl.
  rewrite length_app in H. simpl in H. repeat split. lia.
Qed.

Lemma train_example_ok (self : Linear) (ex : list num) :
  length ex = S (length (weights self)) →
  train_example self ex
  = Ok (with_weights
          (delta_rule (eta self) (weights self) (but_last ex) (label_of ex))
          self).
Proof.
  intros H. destruct (split_last_row ex _ H) as (_ & Hlen & Hlast).
  unfold train_example, last_elem. rewrite Hlast.
  cbn -[run_model adjust_weights].
  rewrite (run_model_ok self (weights self) [but_last ex])
    by (constructor; auto).
  cbn -[adjust_weights hypothesis_for]. unfold adjust_weights.
  cbn -[broadcast2 hypothesis_for]. rewrite broadcast2_scalar_l.
  cbn -[broadcast2 hypothesis_for].
  rewrite broadcast2_same_length by (now rewrite length_map).
  cbn -[hypothesis_for]. unfold delta_rule. now rewrite zip_with_fmap_r.
Qed.

Lemma length_delta_rule lr (w atts : list num) label :
  length atts = length w → length (delta_rule lr w atts label) = length w.
Proof. intros H. unfold delta_rule. now rewrite length_zip_with_l_eq. Qed.

Lemma train_epoch_ok (exs : list (list num)) : ∀ self : Linear,
  Forall (fun ex => length ex = S (length (weights self))) exs →
  foldM train_example self exs
  = Ok (with_weights (online_epoch (eta self) (weights self) exs) self).
Proof.
  induction exs as [|ex exs IH]; intros self Hshape.
  - destruct self; reflexivity.
  - inversion Hshape as [|? ? Hex Hrest]; subst. simpl.
    rewrite train_example_ok by exact Hex. simpl.
    rewrite IH.
    + reflexivity.
    + simpl. rewrite length_delta_rule; [exact Hrest|].
      now destruct (split_last_row ex _ Hex) as (_ & ? & _).
Qed.

(** ** Scoring *)

Lemma last_elem_ok (k : nat) (ex : list num) :
  length ex = S k → last_elem ex = Ok (label_of ex).
Proof.
  intros Hex. destruct (split_last_row ex _ Hex) as (_ & _ & Hlast).
  unfold last_elem. now rewrite Hlast.
Qed.

Lemma labels_ok (k : nat) (exs : list (list num)) :
  Forall (fun ex => length ex = S k) exs →
  mapM last_elem exs = Ok (map label_of exs).
Proof.
  induction 1 as [|ex exs Hex _ IH]; [reflexivity|].
  cbn -[last_elem]. rewrite (last_elem_ok _ _ Hex). cbn -[last_elem].
  now rewrite IH.
Qed.

Lemma attributes_shape (k : nat) (exs : list (list num)) :
  Forall (fun ex => length ex = S k) exs →
  Forall (fun ex => length ex = k) (map but_last exs).
Proof.
  intros H. apply Forall_map. eapply Forall_impl; [exact H|].
  intros ex Hex. simpl. now destruct (split_last_row ex _ Hex) as (_ & ? & _).
Qed.

Lemma count_by_sum (p : list num → bool) (w : list num)
    (exs : list (list num)) :
  ∀ f : num → Z → Z,
  (∀ ex, f (label_of ex) (hypothesis_for w (but_last ex)) = Zbool (p ex)) →
  Zsum (zip_with f (map label_of exs)
          (map (hypothesis_for w) (map but_last exs)))
  = Z.of_nat (length (List.filter p exs)).
Proof.
  intros f Hf. induction exs as [|ex exs IH]; [reflexivity|].
  simpl. rewrite Hf. fold (Zsum (zip_with f (map label_of exs)
    (map (hypothesis_for w) (map but_last exs)))). rewrite IH.
  destruct (p ex); simpl length; unfold Zbool; lia.
Qed.

Lemma percent_fin (c : Z) (n : nat) :
  n ≠ 0%nat →
  percent c n
  = Fin (Qround3 (inject_Z c / inject_Z (Z.of_nat n) * 100)).
Proof.
  intros Hn. unfold percent, ndiv.
  assert (Qzero (inject_Z (Z.of_nat n)) = false) as ->; [|reflexivity].
  apply Qzero_false. intros E. unfold Qeq in E. simpl in E. lia.
Qed.

Lemma accuracy_ok (self : Linear) (w : list num) (exs : list (list num)) :
  Forall (fun ex => length ex = S (length w)) exs →
  accuracy self w exs
  = Ok (percent (Z.of_nat (matches w exs)) (length exs)).
Proof.
  intros Hshape. unfold accuracy.
  rewrite run_model_ok by now apply attributes_shape.
  cbn -[percent]. rewrite (labels_ok _ _ Hshape). cbn -[percent].
  rewrite (count_by_sum (classified_correctly w) w); auto.
Qed.

Lemma error_ok (self : Linear) (w : list num) (exs : list (list num)) :
  Forall (fun ex => length ex = S (length w)) exs →
  error self w exs
  = Ok (percent (Z.of_nat (mismatches w exs)) (length exs)).
Proof.
  intros Hshape. unfold error.
  rewrite run_model_ok by now apply attributes_shape.
  cbn -[percent]. rewrite (labels_ok _ _ Hshape). cbn -[percent].
  rewrite (count_by_sum (fun ex => negb (classified_correctly w ex)) w); auto.
Qed.




(** ** Normalization *)

Section ColumnReduce.

Variable f : Q → Q → Q.
Variable R : Q → Q → Prop.
Hypothesis R_refl : ∀ x, R x x.
Hypothesis R_trans : ∀ x y z, R x y → R y z → R x z.
Hypothesis f_l : ∀ x y, R (f x y) x.
Hypothesis f_r : ∀ x y, R (f x y) y.
Hypothesis f_pick : ∀ x y, f x y = x ∨ f x y = y.

Lemma length_fold_columns (k : nat) (rs : list (list Q)) :
  ∀ acc, length acc = k → Forall (fun row => length row = k) rs →
  length (foldl (zip_with f) acc rs) = k.
Proof.
  induction rs as [|r rs IH]; intros acc Hacc Hrs; [exact Hacc|].
  apply Forall_cons in Hrs as [Hr Hrs]. simpl. apply IH; [|assumption].
  rewrite length_zip_with_l_eq; congruence.
Qed.

(** The fold of [f] down the columns bounds every entry of the column and
    is one of them. *)
Lemma fold_columns_spec (k : nat) (rs : list (list Q)) :
  ∀ acc, length acc = k → Forall (fun row => length row = k) rs →
  ∀ j m, foldl (zip_with f) acc rs !! j = Some m →
  (∀ row x, row ∈ acc :: rs → row !! j = Some x → R m x)
  ∧ ∃ row, row ∈ acc :: rs ∧ row !! j = Some m.
Proof.
  induction rs as [|r rs IH]; intros acc Hacc Hrs j m Hm; simpl in Hm.
  - split.
    + intros row x Hin Hx. apply list_elem_of_singleton in Hin. subst.
      rewrite Hm in Hx. injection Hx as <-. apply R_refl.
    + exists acc. split; [left|exact Hm].
  - apply Forall_cons in Hrs as [Hr Hrs'].
    assert (length (zip_with f acc r) = k) as Hlen
      by (rewrite length_zip_with_l_eq; congruence).
    destruct (IH _ Hlen Hrs' j m Hm) as (Hbound & row & Hin & Hrow).
    assert (j < k)%nat as Hj.
    { rewrite <- (length_fold_columns k rs (zip_with f acc r))
        by assumption. eapply lookup_lt_Some, Hm. }
    destruct (lookup_lt_is_Some_2 acc j) as [a Ha]; [lia|].
    destruct (lookup_lt_is_Some_2 r j) as [b Hb]; [lia|].
    assert (zip_with f acc r !! j = Some (f a b)) as Hz.
    { rewrite lookup_zip_with, Ha, Hb. reflexivity. }
    assert (R m (f a b)) as Hmf by (apply (Hbound (zip_with f acc r)); [left|exact Hz]).
    split.
    + intros row' x Hin' Hx. apply elem_of_cons in Hin' as [->|Hin'].
      * rewrite Ha in Hx. injection Hx as <-. eauto.
      * apply elem_of_cons in Hin' as [->|Hin'].
        -- rewrite Hb in Hx. injection Hx as <-. eauto.
        -- apply (Hbound row'); [right; exact Hin'|exact Hx].
    + apply elem_of_cons in Hin as [->|Hin].
      * rewrite Hz in Hrow. injection Hrow as <-.
        destruct (f_pick a b) as [->| ->].
        -- exists acc. split; [left|exact Ha].
        -- exists r. split; [right; left|exact Hb].
      * exists row. split; [right; right; exact Hin|exact Hrow].
Qed.

End ColumnReduce.

Lemma Qmin_pick (x y : Q) : Qmin x y = x ∨ Qmin x y = y.
Proof. unfold Qmin, GenericMinMax.gmin. destruct (x ?= y)%Q; auto. Qed.

Lemma Qmax_pick (x y : Q) : Qmax x y = x ∨ Qmax x y = y.
Proof. unfold Qmax, GenericMinMax.gmax. destruct (x ?= y)%Q; auto. Qed.

Lemma column_min_computed (k : nat) (data : list (list Q)) (j : nat) (mn : Q) :
  Forall (fun row => length row = k) data → column_min data j mn →
  ∃ MIN m, col_reduce Qmin data = Ok MIN ∧ length MIN = k
           ∧ MIN !! j = Some m ∧ (m == mn)%Q.
Proof.
  intros Hrect ((row & Hin & Hrow) & Hlow).
  destruct data as [|r rs]; [now apply elem_of_nil in Hin|].
  pose proof Hrect as Hrect'. apply Forall_cons in Hrect' as [Hr Hrs].
  pose proof (length_fold_columns Qmin k rs r Hr Hrs) as Hlen.
  assert (j < k)%nat as Hj.
  { apply lookup_lt_Some in Hrow.
    rewrite Forall_forall in Hrect. now rewrite <- (Hrect row Hin). }
  destruct (lookup_lt_is_Some_2 (foldl (zip_with Qmin) r rs) j) as [m Hm];
    [lia|].
  destruct (fold_columns_spec Qmin Qle Qle_refl Qle_trans Q.le_min_l
              Q.le_min_r Qmin_pick k rs r Hr Hrs j m Hm)
    as (Hbound & row' & Hin' & Hrow').
  exists (foldl (zip_with Qmin) r rs), m. repeat split; auto.
  apply Qle_antisym; eauto.
Qed.

Lemma column_max_computed (k : nat) (data : list (list Q)) (j : nat) (mx : Q) :
  Forall (fun row => length row = k) data → column_max data j mx →
  ∃ MAX m, col_reduce Qmax data = Ok MAX ∧ length MAX = k
           ∧ MAX !! j = Some m ∧ (m == mx)%Q.
Proof.
  intros Hrect ((row & Hin & Hrow) & Hup).
  destruct data as [|r rs]; [now apply elem_of_nil in Hin|].
  pose proof Hrect as Hrect'. apply Forall_cons in Hrect' as [Hr Hrs].
  pose proof (length_fold_columns Qmax k rs r Hr Hrs) as Hlen.
  assert (j < k)%nat as Hj.
  { apply lookup_lt_Some in Hrow.
    rewrite Forall_forall in Hrect. now rewrite <- (Hrect row Hin). }
  destruct (lookup_lt_is_Some_2 (foldl (zip_with Qmax) r rs) j) as [m Hm];
    [lia|].
  destruct (fold_columns_spec Qmax (fun x y => y <= x)%Q Qle_refl
              (fun x y z H1 H2 => Qle_trans z y x H2 H1) Q.le_max_l
              Q.le_max_r Qmax_pick k rs r Hr Hrs j m Hm)
    as (Hbound & row' & Hin' & Hrow').
  exists (foldl (zip_with Qmax) r rs), m. repeat split; auto.
  apply Qle_antisym; eauto.
Qed.

Lemma normalize_entry_range (x m M : Q) :
  (m <= x)%Q → (x <= M)%Q → ¬ (m == M)%Q →
  ∃ q, normalize_entry x m M = Fin q ∧ (0 <= q <= 1)%Q
       ∧ ((x == m)%Q → (q == 0)%Q) ∧ ((x == M)%Q → (q == 1)%Q).
Proof.
  intros Hlo Hhi Hne. unfold normalize_entry, nsub, nadd, nopp, ndiv.
  assert (0 < M + - m)%Q as Hpos.
  { destruct (Qlt_le_dec m M) as [L|L]; [lra|].
    exfalso. apply Hne. apply Qle_antisym; [lra|exact L]. }
  assert (Qzero (M + - m) = false) as ->.
  { apply Qzero_false. lra. }
  exists ((x + - m) / (M + - m))%Q. split; [reflexivity|]. repeat split.
  - apply Qle_shift_div_l; [exact Hpos|lra].
  - apply Qle_shift_div_r; [exact Hpos|lra].
  - intros E. rewrite E. field. lra.
  - intros E. rewrite E. field. lra.
Qed.

(** C9.  In a rectangular data set, for a column whose maximum differs from
    its minimum, every normalized value of the column lies between 0 and 1,
    an entry equal to the minimum becomes 0, an entry equal to the maximum
    becomes 1, and every row of the result starts with the bias value 1 in
    front of the normalized attributes. *)
Theorem normalize_column_unit_range
    (data : list (list Q)) (k j : nat) (mn mx : Q) :
  Forall (fun row => length row = k) data →
  column_min data j mn → column_max data j mx → ¬ (mn == mx)%Q →
  ∃ nrm, normalize data = Ok nrm ∧ length nrm = length data
    ∧ ∀ i row x, data !! i = Some row → row !! j = Some x →
        ∃ rest q, nrm !! i = Some (Fin 1 :: rest) ∧ length rest = k
          ∧ rest !! j = Some (Fin q) ∧ (0 <= q <= 1)%Q
          ∧ ((x == mn)%Q → (q == 0)%Q) ∧ ((x == mx)%Q → (q == 1)%Q).
Proof.
  intros Hrect Hmin Hmax Hne.
  destruct (column_min_computed k data j mn Hrect Hmin)
    as (MIN & m & HMIN & HlenMIN & Hm & Em).
  destruct (column_max_computed k data j mx Hrect Hmax)
    as (MAX & M & HMAX & HlenMAX & HM & EM).
  unfold normalize. rewrite HMAX, HMIN. cbn -[normalize_row].
  eexists. split; [reflexivity|]. split; [apply length_map|].
  intros i row x Hrow Hx.
  assert (row ∈ data) as Hin by (eapply list_elem_of_lookup_2, Hrow).
  assert (length row = k) as Hlen.
  { rewrite Forall_forall in Hrect. now apply Hrect. }
  destruct (normalize_entry_range x m M) as (q & Hq & Hrange & H0 & H1).
  { rewrite Em. destruct Hmin as [_ Hlow]. eauto. }
  { rewrite EM. destruct Hmax as [_ Hup]. eauto. }
  { now rewrite Em, EM. }
  exists (normalize_row MIN MAX row), q. split.
  { rewrite list_lookup_fmap, Hrow. reflexivity. }
  split.
  { unfold normalize_row. rewrite length_zip_with_l_eq; [exact Hlen|].
    rewrite length_zip_with_l_eq; congruence. }
  split.
  { unfold normalize_row. rewrite lookup_zip_with, Hx. simpl.
    rewrite lookup_zip_with, Hm. simpl. rewrite HM. simpl. now rewrite Hq. }
  split; [exact Hrange|]. split.
  - intros E. apply H0. now rewrite E, Em.
  - intros E. apply H1. now rewrite E, EM.
Qed.

Lemma normalize_column_witness :
  ∃ nrm, normalize [[1; 5; 0]; [2; 3; 1]; [3; 4; 1]; [0; 1; 0]]%Q = Ok nrm
         ∧ ∃ rest, nrm !! 2%nat = Some (Fin 1 :: rest)
                   ∧ ∃ q, rest !! 0%nat = Some (Fin q) ∧ (q == 1)%Q.
Proof.
  destruct (normalize_column_unit_range
              [[1; 5; 0]; [2; 3; 1]; [3; 4; 1]; [0; 1; 0]]%Q 3 0 0%Q 3%Q)
    as (nrm & Hn & _ & H).
  - repeat constructor.
  - split.
    + exists [0; 1; 0]%Q. split; [|reflexivity].
      do 3 right. left.
    + intros row x Hin Hx. repeat (apply elem_of_cons in Hin as [->|Hin]);
        try (injection Hx as <-; discriminate).
      now apply elem_of_nil in Hin.
  - split.
    + exists [3; 4; 1]%Q. split; [|reflexivity].
      do 2 right. left.
    + intros row x Hin Hx. repeat (apply elem_of_cons in Hin as [->|Hin]);
        try (injection Hx as <-; discriminate).
      now apply elem_of_nil in Hin.
  - discriminate.
  - destruct (H 2%nat [3; 4; 1]%Q 3%Q eq_refl eq_refl)
      as (rest & q & Hrow & _ & Hq & _ & _ & H1).
    exists nrm. split; [exact Hn|]. exists rest. split; [exact Hrow|].
    exists q. split; [exact Hq|]. apply H1. reflexivity.
Defined.

(** ** Shuffle and split *)

Lemma swap_rows_perm {A} (x : list A) (i j : nat) : swap_rows x i j ≡ₚ x.
Proof.
  unfold swap_rows. destruct (x !! i) as [xi|] eqn:Hi; [|reflexivity].
  destruct (x !! j) as [xj|] eqn:Hj; [|reflexivity].
  now apply Permutation_insert_swap.
Qed.

Lemma shuffle_from_perm {A} (i : nat) : ∀ (w : World) (x : list A),
  (shuffle_from i w x).1 ≡ₚ x.
Proof.
  induction i as [|i IH]; intros w x; [reflexivity|].
  cbn -[random_interval swap_rows]. destruct (random_interval w (S i)) as [j w'].
  rewrite IH. apply swap_rows_perm.
Qed.

Lemma np_random_shuffle_perm {A} (w : World) (x : list A) :
  (np_random_shuffle w x).1 ≡ₚ x.
Proof. apply shuffle_from_perm. Qed.

(** The shuffle reads the global generator only through its draws from the
    current position on. *)
Lemma shuffle_from_ext {A} (i : nat) : ∀ (w1 w2 : World) (x : list A),
  (∀ k, legacy_draws w1 k = legacy_draws w2 k) →
  legacy_pos w1 = legacy_pos w2 →
  (shuffle_from i w1 x).1 = (shuffle_from i w2 x).1.
Proof.
  induction i as [|i IH]; intros w1 w2 x Hd Hp; [reflexivity|].
  simpl. rewrite Hd, Hp. apply IH; simpl; auto.
Qed.



Section InitializeFacts.

Variable seeded_doubles : pyval → result (nat → Q).

(** What [initialize] leaves unchanged and what it writes. *)
Lemma initialize_inv (shuffle : bool) (self self' : Linear) (w w' : World) :
  initialize seeded_doubles shuffle self w = Ok (self', w') →
  let sw := if shuffle then shuffle_and_split self w else (self, w) in
  ∃ g ws,
    default_rng seeded_doubles (seed sw.1) sw.2 = Ok (g, w')
    ∧ rng_random g (Z.of_nat (shape1 (norm sw.1)) - 1) = Ok ws
    ∧ self' = with_weights ws sw.1.
Proof.
  unfold initialize. intros H.
  destruct (if shuffle then shuffle_and_split self w else (self, w))
    as [self1 w1] eqn:E.
  cbn [fst snd].
  destruct (default_rng seeded_doubles (seed self1) w1) as [[g w2]|e];
    [|discriminate].
  cbn -[rng_random] in H.
  destruct (rng_random g _) as [ws|e] eqn:Hws; [|discriminate].
  cbn in H. injection H as <- <-. exists g, ws. auto.
Qed.

Lemma default_rng_seeded (z : Z) (w w' : World) (g : nat → Q) :
  default_rng seeded_doubles (PyInt z) w = Ok (g, w') →
  seeded_doubles (PyInt z) = Ok g ∧ w' = w.
Proof.
  unfold default_rng. destruct (seeded_doubles (PyInt z)); [|discriminate].
  cbn. intros H. injection H as <- <-. auto.
Qed.


End InitializeFacts.


Section ShuffleInPlace.

Variable seeded_doubles : pyval → result (nat → Q).

(** C10.  [initialize] with [shuffle=True] shuffles the stored normalized
    data itself: after the call [norm] holds the shuffled rows, the same
    rows as before in the order the global generator chose, [shuffled]
    reads exactly these rows, and a later [initialize] without shuffle
    still finds them in the shuffled order. *)
Theorem shuffle_permutes_stored_norm
    (self self' : Linear) (w w' : World) :
  initialize seeded_doubles true self w = Ok (self', w') →
  norm self' = (np_random_shuffle w (norm self)).1
  ∧ norm self' ≡ₚ norm self
  ∧ read_view (shuffled self') (norm self') = norm self'
  ∧ ∀ self'' w'',
      initialize seeded_doubles false self' w' = Ok (self'', w'') →
      norm self'' = norm self'.
Proof.
  intros Hinit.
  destruct (initialize_inv _ _ _ _ _ _ Hinit) as (g & ws & _ & _ & ->).
  unfold shuffle_and_split.
  pose proof (np_random_shuffle_perm w (norm self)) as Hperm.
  destruct (np_random_shuffle w (norm self)) as [buf w1]. cbn [fst] in *.
  cbn [fst snd with_weights with_split shuffled norm].
  split; [reflexivity|]. split; [exact Hperm|]. split.
  - unfold read_view, full_view, view_len. cbn [vstart vstop].
    rewrite Nat.sub_0_r, drop_0. apply firstn_all.
  - intros self'' w'' H2.
    destruct (initialize_inv _ _ _ _ _ _ H2) as (g2 & ws2 & _ & _ & ->).
    reflexivity.
Qed.

Lemma shape1_rect {A} (k : nat) (a : list (list A)) :
  Forall (fun row => length row = k) a → a ≠ [] → shape1 a = k.
Proof. intros H Hne. destruct a; [done|]. now inversion H. Qed.

Lemma normalize_rect (k : nat) (data : list (list Q)) (nrm : list (list num)) :
  Forall (fun row => length row = k) data → normalize data = Ok nrm →
  Forall (fun row => length row = S k) nrm ∧ length nrm = length data
  ∧ data ≠ [].
Proof.
  intros Hrect. unfold normalize.
  destruct data as [|r rs]; [discriminate|].
  cbn -[normalize_row foldl]. intros H. injection H as <-.
  apply Forall_cons in Hrect as [Hr Hrs].
  pose proof (length_fold_columns Qmax k rs r Hr Hrs) as HM.
  pose proof (length_fold_columns Qmin k rs r Hr Hrs) as Hm.
  assert (∀ row, length row = k →
    length (Fin 1 :: normalize_row (foldl (zip_with Qmin) r rs)
                       (foldl (zip_with Qmax) r rs) row) = S k) as Hrow.
  { intros row Hlen. simpl. f_equal. unfold normalize_row.
    rewrite length_zip_with_l_eq; [exact Hlen|].
    rewrite length_zip_with_l_eq; congruence. }
  split; [|split; [|discriminate]].
  - constructor; [now apply Hrow|]. apply Forall_map.
    eapply Forall_impl; [exact Hrs|]. intros row Hlen. now apply Hrow.
  - simpl. now rewrite length_map.
Qed.

(** C4, as the code has it.  Two constructions on the same rectangular
    data with the same integer seed draw the same initial weights, whatever
    the state of the process; the shuffled data and the split are the same
    when moreover the global generator, which the seed does not reach, is
    in the same state. *)
Theorem seeded_init_reproducible
    (data : list (list Q)) (k : nat) (train threshold' lr : Q) (z : Z)
    (max_epochs' : Z) (verbose' : bool) (w1 w2 w1' w2' : World)
    (s1 s2 : Linear) :
  Forall (fun row => length row = k) data →
  init seeded_doubles data train threshold' lr (PyInt z) max_epochs'
    verbose' w1 = Ok (s1, w1') →
  init seeded_doubles data train threshold' lr (PyInt z) max_epochs'
    verbose' w2 = Ok (s2, w2') →
  weights s1 = weights s2
  ∧ ((∀ i, legacy_draws w1 i = legacy_draws w2 i) →
     legacy_pos w1 = legacy_pos w2 →
     norm s1 = norm s2 ∧ trainSS s1 = trainSS s2 ∧ testSS s1 = testSS s2).
Proof.
  intros Hrect. unfold init.
  destruct (normalize data) as [nrm|e] eqn:Hn; [|discriminate].
  destruct (normalize_rect k data nrm Hrect Hn) as (Hrows & Hlen & Hne).
  cbn -[initialize]. intros H1 H2.
  destruct (initialize_inv _ _ _ _ _ _ H1) as (g1 & ws1 & Hg1 & Hws1 & ->).
  destruct (initialize_inv _ _ _ _ _ _ H2) as (g2 & ws2 & Hg2 & Hws2 & ->).
  clear H1 H2. unfold shuffle_and_split in *.
  cbn [norm training] in *.
  pose proof (np_random_shuffle_perm w1 nrm) as Hp1.
  pose proof (np_random_shuffle_perm w2 nrm) as Hp2.
  pose proof (shuffle_from_ext (length nrm - 1) w1 w2 nrm) as Hext.
  unfold np_random_shuffle in *.
  destruct (shuffle_from (length nrm - 1) w1 nrm) as [buf1 u1].
  destruct (shuffle_from (length nrm - 1) w2 nrm) as [buf2 u2].
  cbn [fst snd with_split with_weights seed norm weights trainSS testSS]
    in *.
  apply default_rng_seeded in Hg1 as [Hg1 _].
  apply default_rng_seeded in Hg2 as [Hg2 _].
  assert (g1 = g2) as <- by congruence.
  assert (∀ buf : list (list num), buf ≡ₚ nrm → shape1 buf = S k) as Hshape.
  { intros buf Hp. apply shape1_rect.
    - now rewrite Hp.
    - intros ->. apply Permutation_nil_l in Hp. subst nrm.
      destruct data; [done|discriminate]. }
  rewrite (Hshape buf1 Hp1) in Hws1. rewrite (Hshape buf2 Hp2) in Hws2.
  split; [congruence|]. intros Hd Hpos.
  rewrite (Hext Hd Hpos). auto.
Qed.

End ShuffleInPlace.

Lemma shuffle_permutes_witness :
  ∃ nrm self' w',
    normalize example_data = Ok nrm
    ∧ init example_doubles example_data (3 # 4) (9 # 10) (1 # 10) (PyInt 3) 5
        false (example_world (fun k => k)) = Ok (self', w')
    ∧ norm self' ≡ₚ nrm ∧ norm self' ≠ nrm.
Proof.
  destruct (normalize example_data) as [nrm|e] eqn:Hn; [|discriminate].
  unfold init. rewrite Hn. cbn -[initialize].
  match goal with
  | |- context [initialize _ _ ?m ?w] =>
      destruct (initialize example_doubles true m w) as [[self' w']|e] eqn:Hi;
      [pose proof (shuffle_permutes_stored_norm example_doubles m self' w w'
                     Hi) as (Hbuf & Hperm & _)
      | vm_compute in Hn; injection Hn as <-; discriminate]
  end.
  exists nrm, self', w'. split; [reflexivity|]. split; [reflexivity|].
  split; [exact Hperm|]. rewrite Hbuf. cbn [norm].
  vm_compute in Hn. injection Hn as <-. vm_compute. intros H.
  discriminate H.
Defined.

Lemma seeded_init_witness :
  ∃ s1 s2 w1' w2',
    init example_doubles example_data (3 # 4) (9 # 10) (1 # 10) (PyInt 3) 5
      false (example_world (fun k => k)) = Ok (s1, w1')
    ∧ init example_doubles example_data (3 # 4) (9 # 10) (1 # 10) (PyInt 3) 5
        false (example_world (fun _ => 1%nat)) = Ok (s2, w2')
    ∧ weights s1 = weights s2.
Proof.
  eexists _, _, _, _. split; [vm_compute; reflexivity|].
  split; [vm_compute; reflexivity|].
  refine (proj1 (seeded_init_reproducible example_doubles example_data 3
                   (3 # 4) (9 # 10) (1 # 10) 3 5 false
                   (example_world (fun k => k))
                   (example_world (fun _ => 1%nat)) _ _ _ _ _ _ _)).
  - repeat constructor.
  - vm_compute. reflexivity.
  - vm_compute. reflexivity.
Defined.

(** C4, as stated, fails: the same data and the same seed give different
    training subsets when the global generator draws differently. *)
Lemma seeded_split_not_reproducible :
  ∃ s1 s2 w1' w2',
    init example_doubles example_data (3 # 4) (9 # 10) (1 # 10) (PyInt 3) 5
      false (example_world (fun k => k)) = Ok (s1, w1')
    ∧ init example_doubles example_data (3 # 4) (9 # 10) (1 # 10) (PyInt 3) 5
        false (example_world (fun _ => 1%nat)) = Ok (s2, w2')
    ∧ seed s1 = seed s2 ∧ data s1 = data s2
    ∧ read_view (trainSS s1) (norm s1) ≠ read_view (trainSS s2) (norm s2)
    ∧ read_view (testSS s1) (norm s1) ≠ read_view (testSS s2) (norm s2).
Proof.
  eexists _, _, _, _. split; [vm_compute; reflexivity|].
  split; [vm_compute; reflexivity|].
  split; [reflexivity|]. split; [reflexivity|].
  split; vm_compute; intros H; discriminate H.
Qed.

(** ** Seed handling *)

Lemma shuffle_from_warnings {A} (i : nat) : ∀ (w : World) (x : list A),
  warnings (shuffle_from i w x).2 = warnings w.
Proof.
  induction i as [|i IH]; intros w x; [reflexivity|].
  cbn -[swap_rows Nat.modulo]. now rewrite IH.
Qed.

Section ResetFacts.

Variable seeded_doubles : pyval → result (nat → Q).

Lemma initialize_keeps_seed (shuffle : bool) (self self' : Linear)
    (w w' : World) :
  initialize seeded_doubles shuffle self w = Ok (self', w') →
  seed self' = seed self ∧ warnings w' = warnings w.
Proof.
  intros H.
  destruct (initialize_inv _ _ _ _ _ _ H) as (g & ws & Hg & _ & ->).
  assert (seed (if shuffle then shuffle_and_split self w else (self, w)).1
          = seed self
          ∧ warnings
              (if shuffle then shuffle_and_split self w else (self, w)).2
            = warnings w) as [Hs Hw].
  { destruct shuffle; [|auto]. unfold shuffle_and_split.
    pose proof (shuffle_from_warnings (length (norm self) - 1) w (norm self))
      as Hw.
    unfold np_random_shuffle.
    destruct (shuffle_from _ w (norm self)) as [buf w1]. auto. }
  split; [exact Hs|]. rewrite <- Hw. unfold default_rng in Hg.
  destruct (seed _).
  - cbn in Hg. destruct (seeded_doubles _); [|discriminate].
    cbn in Hg. injection Hg as _ <-. reflexivity.
  - destruct (seeded_doubles _); [|discriminate].
    cbn in Hg. now injection Hg as _ <-.
  - destruct (seeded_doubles _); [|discriminate].
    cbn in Hg. now injection Hg as _ <-.
  - destruct (seeded_doubles _); [|discriminate].
    cbn in Hg. now injection Hg as _ <-.
  - destruct (seeded_doubles _); [|discriminate].
    cbn in Hg. now injection Hg as _ <-.
Qed.

(** A non-zero integer seed is stored, a warning is emitted, and
    [initialize] runs on the result. *)
Lemma reset_nonzero_int (shuffle : bool) (z : Z) (self : Linear) (w : World) :
  z ≠ 0 →
  reset seeded_doubles shuffle (PyInt z) self w
  = initialize seeded_doubles shuffle (store_seed (PyInt z) self)
      (warn seed_warning w).
Proof.
  intros Hz. unfold reset. cbn [truthy].
  destruct (Z.eqb_spec z 0); [done|]. reflexivity.
Qed.

(** The string None, in any capitalisation, unsets the seed. *)
Lemma reset_none_string (shuffle : bool) (s : string) (self : Linear)
    (w : World) :
  str_lower s = "none"%string →
  reset seeded_doubles shuffle (PyStr s) self w
  = initialize seeded_doubles shuffle (store_seed PyNone self)
      (warn seed_warning w).
Proof.
  intros Hs. unfold reset, set_seed. cbn [truthy isinstance_int isinstance_str].
  destruct s as [|c s]; [discriminate|]. cbn [String.eqb negb andb].
  rewrite Hs. reflexivity.
Qed.

(** A float, or a non-empty string other than None, is refused, provided
    it is truthy. *)
Lemma reset_rejects (shuffle : bool) (v : pyval) (self : Linear) (w : World) :
  truthy v = true → isinstance_int v = false →
  (∀ s, v = PyStr s → str_lower s ≠ "none"%string) →
  reset seeded_doubles shuffle v self w = Raise (ValueError seed_error).
Proof.
  intros Ht Hi Hs. unfold reset, set_seed. rewrite Ht, Hi.
  destruct v as [| | |x|s]; try reflexivity.
  cbn [isinstance_str andb].
  destruct (String.eqb_spec (str_lower s) "none"); [|reflexivity].
  now destruct (Hs s eq_refl).
Qed.

(** C5, at the seed 0.  [reset] tests the truth value of its [seed]
    argument, so the integer 0 counts as no seed at all: [set_seed] is not
    called, the stored seed stays what it was and no warning is emitted. *)
Theorem reset_zero_seed_ignored
    (shuffle : bool) (self self' : Linear) (w w' : World) :
  reset seeded_doubles shuffle (PyInt 0) self w = Ok (self', w') →
  reset seeded_doubles shuffle (PyInt 0) self w
  = initialize seeded_doubles shuffle self w
  ∧ seed self' = seed self
  ∧ warnings w' = warnings w.
Proof.
  intros H. split; [reflexivity|].
  now apply (initialize_keeps_seed shuffle).
Qed.

End ResetFacts.

Lemma reset_zero_seed_witness :
  ∃ self0 w0 self' w',
    init example_doubles example_data (3 # 4) (9 # 10) (1 # 10) (PyInt 42) 5
      false (example_world (fun k => k)) = Ok (self0, w0)
    ∧ reset example_doubles true (PyInt 0) self0 w0 = Ok (self', w')
    ∧ seed self' = PyInt 42 ∧ warnings w' = [].
Proof.
  destruct (init example_doubles example_data (3 # 4) (9 # 10) (1 # 10)
              (PyInt 42) 5 false (example_world (fun k => k)))
    as [[self0 w0]|e] eqn:Hinit; vm_compute in Hinit; [|discriminate].
  injection Hinit as <- <-.
  match goal with
  | |- ∃ s0 w0 s' w', Ok (?m, ?w) = Ok (s0, w0) ∧ _ =>
      destruct (reset example_doubles true (PyInt 0) m w)
        as [[self' w']|e] eqn:Hr;
      [pose proof (reset_zero_seed_ignored example_doubles true m self' w w'
                     Hr) as (_ & Hs & Hw)
      | vm_compute in Hr; discriminate];
      exists m, w, self', w'
  end.
  split; [reflexivity|]. split; [exact Hr|]. split; [exact Hs | exact Hw].
Defined.

(** ** The training loop *)

Lemma with_weights_id (s : Linear) : with_weights (weights s) s = s.
Proof. now destruct s. Qed.

(** An example changes the weights and nothing else. *)
Lemma train_example_frame (s s' : Linear) (ex : list num) :
  train_example s ex = Ok s' → ∃ ws, s' = with_weights ws s.
Proof.
  unfold train_example. destruct (last_elem ex) as [label|e]; [|discriminate].
  cbn -[run_model adjust_weights].
  destruct (run_model s (weights s) [but_last ex]) as [h|e]; [|discriminate].
  cbn -[adjust_weights]. unfold adjust_weights.
  destruct (broadcast2 nmul _ _) as [delta|e]; [|discriminate].
  cbn -[broadcast2].
  destruct (broadcast2 nadd _ _) as [ws|e]; [|discriminate].
  cbn. intros H. injection H as <-. eauto.
Qed.

Lemma train_epoch_frame (exs : list (list num)) : ∀ s s' : Linear,
  foldM train_example s exs = Ok s' → ∃ ws, s' = with_weights ws s.
Proof.
  induction exs as [|ex exs IH]; intros s s' H.
  - injection H as <-. exists (weights s). symmetry. apply with_weights_id.
  - cbn -[train_example] in H.
    destruct (train_example s ex) as [s1|e] eqn:E; [|discriminate].
    cbn -[train_example] in H.
    destruct (train_example_frame _ _ _ E) as (ws1 & ->).
    destruct (IH _ _ H) as (ws & ->). now exists ws.
Qed.


Lemma test_train_inv (s : Linear) (acc err : num) :
  test true s = Ok (acc, err) →
  accuracy s (weights s) (read_view (trainSS s) (norm s)) = Ok acc.
Proof.
  unfold test. destruct (accuracy _ _ _) as [a|e]; [|discriminate].
  cbn -[error]. destruct (error _ _ _) as [e'|e']; [|discriminate].
  cbn. intros H. now injection H as <- <-.
Qed.

(** What one run of the loop body does to the attributes of the object. *)
Lemma train_step_next (s s' : Linear) :
  train_step s = Next s' →
  nlt (np_mean (last3 (train_accs s))) (Fin (threshold s)) = true
  ∧ epoch_num s + 1 <= max_epochs s
  ∧ epoch_num s' = epoch_num s + 1
  ∧ max_epochs s' = max_epochs s
  ∧ threshold s' = threshold s
  ∧ norm s' = norm s ∧ trainSS s' = trainSS s
  ∧ ∃ ws acc,
      foldM train_example (count_epoch s) (read_view (trainSS s) (norm s))
      = Ok (with_weights ws (count_epoch s))
      ∧ accuracy s ws (read_view (trainSS s) (norm s)) = Ok acc
      ∧ weights s' = ws
      ∧ train_accs s' = train_accs s ++ [acc].
Proof.
  unfold train_step.
  destruct (nlt _ _); [|discriminate].
  cbn [epoch_num max_epochs with_run count_epoch].
  destruct (Z.gtb_spec (epoch_num s + 1) (max_epochs s)) as [Hgt|Hle];
    [discriminate|].
  cbn [trainSS norm with_run].
  fold (count_epoch s).
  destruct (foldM train_example _ _) as [s2|e] eqn:Hfold; [|discriminate].
  destruct (train_epoch_frame _ _ _ Hfold) as (ws & ->).
  cbn -[test].
  destruct (test true _) as [[acc err]|e] eqn:Htest; [|discriminate].
  apply test_train_inv in Htest. cbn. intros H. injection H as <-.
  cbn. repeat split; auto. exists ws, acc. auto.
Qed.

(** The weights after one run of the loop body are those of one online
    epoch over the training subset. *)
Lemma train_step_weights (s s' : Linear) :
  Forall (fun e => length e = S (length (weights s)))
    (read_view (trainSS s) (norm s)) →
  train_step s = Next s' →
  weights s'
  = online_epoch (eta s) (weights s) (read_view (trainSS s) (norm s)).
Proof.
  intros Hshape Hstep.
  destruct (train_step_next _ _ Hstep)
    as (_ & _ & _ & _ & _ & _ & _ & ws & acc & Hfold & _ & -> & _).
  rewrite train_epoch_ok in Hfold by exact Hshape.
  injection Hfold as <-. reflexivity.
Qed.

Lemma train_step_stop (s s' : Linear) :
  train_step s = Stop s' →
  s' = s ∧ nlt (np_mean (last3 (train_accs s))) (Fin (threshold s)) = false.
Proof.
  unfold train_step. destruct (nlt _ _); [|intros H; now injection H as <-].
  destruct (_ >? _); [discriminate|].
  destruct (mbind _ _); discriminate.
Qed.

Lemma train_step_exit (s : Linear) :
  nlt (np_mean (last3 (train_accs s))) (Fin (threshold s)) = true →
  epoch_num s + 1 > max_epochs s →
  train_step s = Abort (SystemExit (max_epochs s)).
Proof.
  intros Hc Hgt. unfold train_step. rewrite Hc.
  cbn [epoch_num max_epochs with_run count_epoch].
  destruct (Z.gtb_spec (epoch_num s + 1) (max_epochs s)); [reflexivity|lia].
Qed.

(** The loop ends within the epochs that are left, and then it has
    evaluated its condition at most once more than that. *)
Lemma train_loop_total (fuel : nat) : ∀ s : Linear,
  epoch_num s <= max_epochs s →
  (Z.to_nat (max_epochs s - epoch_num s) + 1 <= fuel)%nat →
  ∃ r checks, train_loop fuel s = Some (r, checks)
              ∧ (1 <= checks <= Z.to_nat (max_epochs s - epoch_num s) + 1)%nat.
Proof.
  induction fuel as [|fuel IH]; intros s He Hfuel; [lia|].
  cbn [train_loop]. destruct (train_step s) as [s'|s'|e] eqn:Hstep.
  - eexists _, _. split; [reflexivity|lia].
  - destruct (train_step_next _ _ Hstep)
      as (_ & Hle & He' & HM & _).
    destruct (IH s') as (r & c & Hr & Hc); [lia|lia|].
    rewrite Hr. eexists _, _. split; [reflexivity|].
    rewrite HM, He' in Hc. lia.
  - eexists _, _. split; [reflexivity|lia].
Qed.

Lemma train_entry_inv (self self0 : Linear) :
  train_entry self = Ok self0 →
  epoch_num self0 = 0 ∧ max_epochs self0 = max_epochs self
  ∧ threshold self0 = threshold self
  ∧ norm self0 = norm self ∧ trainSS self0 = trainSS self
  ∧ ∃ acc, accuracy self (weights self)
             (read_view (trainSS self) (norm self)) = Ok acc
           ∧ train_accs self0 = [acc].
Proof.
  unfold train_entry.
  destruct (test true _) as [[acc err]|e] eqn:Htest; [|discriminate].
  apply test_train_inv in Htest. cbn. intros H. injection H as <-.
  cbn. repeat split; auto. exists acc. auto.
Qed.

Lemma train_checks_bound (self : Linear) :
  0 <= max_epochs self →
  ∃ r checks, train self = Some (r, checks)
              ∧ Z.of_nat checks <= max_epochs self + 1.
Proof.
  intros HM. unfold train.
  destruct (train_entry self) as [self0|e] eqn:Hentry.
  - destruct (train_entry_inv _ _ Hentry) as (He & HM0 & _).
    destruct (train_loop_total (train_fuel self0) self0) as (r & c & Hr & Hc).
    + lia.
    + unfold train_fuel. rewrite He, Z.sub_0_r. lia.
    + rewrite Hr. rewrite He, HM0, Z.sub_0_r in Hc.
      destruct r as [s1|e]; eexists _, _; (split; [reflexivity|lia]).
  - eexists _, _. split; [reflexivity|lia].
Qed.

(** [train] never runs out of fuel, whatever the budget. *)
Lemma train_total (self : Linear) : ∃ r checks, train self = Some (r, checks).
Proof.
  destruct (Z.le_gt_cases 0 (max_epochs self)) as [HM|HM].
  - destruct (train_checks_bound self HM) as (r & c & H & _). eauto.
  - unfold train. destruct (train_entry self) as [self0|e] eqn:Hentry; [|eauto].
    destruct (train_entry_inv _ _ Hentry) as (He & HM0 & _).
    unfold train_fuel. rewrite HM0.
    replace (Z.to_nat (max_epochs self) + 1)%nat with 1%nat by lia.
    cbn [train_loop]. destruct (train_step self0) as [s1|s1|e] eqn:Hstep; eauto.
    destruct (train_step_next _ _ Hstep) as (_ & Hle & _). lia.
Qed.

(** C3.  With a non-negative epoch budget, [train] always ends (no amount
    of fuel is missing), and it has then evaluated the stopping condition at
    most [max_epochs + 1] times.
    The epoch counter is 0 when the loop is entered; every run of the body
    raises it by exactly 1 and leaves it within the budget; when the
    condition holds and the counter raised by 1 exceeds [max_epochs], the
    step is the fatal exit, which carries no object. *)
Theorem train_terminates_within_budget (self : Linear) :
  0 <= max_epochs self →
  (∃ r checks, train self = Some (r, checks)
               ∧ Z.of_nat checks <= max_epochs self + 1)
  ∧ (∀ self0, train_entry self = Ok self0 → epoch_num self0 = 0)
  ∧ (∀ s s', train_step s = Next s' →
       epoch_num s' = epoch_num s + 1 ∧ epoch_num s' <= max_epochs s)
  ∧ (∀ s, nlt (np_mean (last3 (train_accs s))) (Fin (threshold s)) = true →
       epoch_num s + 1 > max_epochs s →
       train_step s = Abort (SystemExit (max_epochs s))).
Proof.
  intros HM. split; [|split; [|split]].
  - now apply train_checks_bound.
  - intros self0 H. now destruct (train_entry_inv _ _ H).
  - intros s s' H. destruct (train_step_next _ _ H) as (_ & ? & ? & _). lia.
  - apply train_step_exit.
Qed.

Lemma train_budget_witness :
  ∃ checks, train (example_model 2) = Some (Raise (SystemExit 2), checks)
            ∧ Z.of_nat checks <= 3.
Proof.
  destruct (train_terminates_within_budget (example_model 2))
    as ((r & checks & Hr & Hc) & _).
  - vm_compute. discriminate.
  - exists checks. split; [|exact Hc].
    rewrite Hr. vm_compute in Hr. injection Hr as <- <-. reflexivity.
Defined.

(** ** The online update within the loop *)

(** C2.  An epoch over examples of the right width visits them in order;
    on each it computes the hypothesis with the current weights and replaces
    every weight [w_i] by
    [w_i + learning_rate * (true_label - hypothesis) * attribute_i], and the
    next example starts from the weights just written; the loop body of
    [train] runs such an epoch over the training subset.  With weights
    [-1, 0.5], example [1, 0.2] of label 1 and learning rate 0.1 the
    hypothesis is 0 and the new weights are [-0.9, 0.52]. *)
Theorem train_epoch_online_delta_rule
    (self : Linear) (ex : list num) (rest : list (list num)) :
  Forall (fun e => length e = S (length (weights self))) (ex :: rest) →
  let w1 := delta_rule (eta self) (weights self) (but_last ex) (label_of ex) in
  train_example self ex = Ok (with_weights w1 self)
  ∧ foldM train_example self (ex :: rest)
    = foldM train_example (with_weights w1 self) rest
  ∧ foldM train_example self (ex :: rest)
    = Ok (with_weights (online_epoch (eta self) w1 rest) self)
  ∧ (∀ s', read_view (trainSS self) (norm self) = ex :: rest →
       train_step self = Next s' →
       weights s' = online_epoch (eta self) w1 rest)
  ∧ run_model (bare_model (1 # 10) [Fin (-1); Fin (1 # 2)])
      [Fin (-1); Fin (1 # 2)] [[Fin 1; Fin (1 # 5)]] = Ok [0]
  ∧ ∃ w', train_example (bare_model (1 # 10) [Fin (-1); Fin (1 # 2)])
            [Fin 1; Fin (1 # 5); Fin 1]
          = Ok (with_weights w' (bare_model (1 # 10) [Fin (-1); Fin (1 # 2)]))
        ∧ Forall2 same_num w' [Fin (- (9 # 10)); Fin (13 # 25)].
Proof.
  intros Hshape w1. inversion Hshape as [|? ? Hex Hrest]; subst.
  pose proof (train_example_ok self ex Hex) as Hstep. fold w1 in Hstep.
  split; [exact Hstep|]. split; [simpl; now rewrite Hstep|].
  split; [now rewrite train_epoch_ok|]. split.
  { intros s' Hview Hnext.
    rewrite (train_step_weights self s') by (now rewrite ?Hview).
    now rewrite Hview. }
  split; [reflexivity|].
  eexists. split; [now rewrite train_example_ok|].
  repeat constructor; vm_compute; reflexivity.
Qed.

Lemma train_epoch_online_witness :
  ∃ w2, foldM train_example (bare_model (1 # 10) [Fin (-1); Fin (1 # 2)])
          [[Fin 1; Fin (1 # 5); Fin 1]; [Fin 1; Fin 3; Fin 0]]
        = Ok (with_weights w2 (bare_model (1 # 10) [Fin (-1); Fin (1 # 2)]))
      ∧ Forall2 same_num w2 [Fin (- 1); Fin (11 # 50)].
Proof.
  destruct (train_epoch_online_delta_rule
              (bare_model (1 # 10) [Fin (-1); Fin (1 # 2)])
              [Fin 1; Fin (1 # 5); Fin 1] [[Fin 1; Fin 3; Fin 0]])
    as (_ & _ & H & _ & _).
  - repeat constructor.
  - eexists. split; [exact H|]. repeat constructor; vm_compute; reflexivity.
Defined.

(** ** The stopping rule *)

Lemma last3_map_fin (accs : list Q) :
  last3 (map Fin accs) = map Fin (trailing_window accs).
Proof.
  unfold last3, trailing_window. rewrite length_map, <- fmap_drop.
  destruct (Nat.ltb_spec (length accs) 3) as [H|H]; [|reflexivity].
  replace (length accs - 3)%nat with 0%nat by lia. reflexivity.
Qed.

Lemma trailing_window_nonempty (accs : list Q) :
  accs ≠ [] → trailing_window accs ≠ [].
Proof.
  intros Hne. unfold trailing_window.
  destruct (Nat.ltb_spec (length accs) 3) as [H|H]; [exact Hne|].
  intros E. apply (f_equal length) in E. rewrite length_drop in E.
  simpl in E. lia.
Qed.

Lemma np_mean_fin (l : list Q) :
  l ≠ [] → ∃ q, np_mean (map Fin l) = Fin q ∧ (q == Qmean l)%Q.
Proof.
  intros Hne. unfold np_mean, np_sum, Qmean.
  destruct (np_sum_fin_from 0 l) as (q & -> & E). rewrite length_map.
  unfold ndiv.
  assert (¬ inject_Z (Z.of_nat (length l)) == 0)%Q as Hn.
  { destruct l; [done|]. unfold Qeq. simpl. lia. }
  assert (Qzero (inject_Z (Z.of_nat (length l))) = false) as ->
    by now apply Qzero_false.
  eexists. split; [reflexivity|]. rewrite E. field. exact Hn.
Qed.

Lemma train_step_stop_iff (s : Linear) (accs : list Q) :
  accs ≠ [] → train_accs s = map Fin accs →
  train_step s = Stop s ↔ (threshold s <= trailing_mean accs)%Q.
Proof.
  intros Hne Haccs.
  destruct (np_mean_fin (trailing_window accs)) as (q & Hq & E);
    [now apply trailing_window_nonempty|].
  assert (nlt (np_mean (last3 (train_accs s))) (Fin (threshold s))
          = Qltb q (threshold s)) as Hc.
  { now rewrite Haccs, last3_map_fin, Hq. }
  unfold trailing_mean. rewrite <- E. split.
  - intros H. apply train_step_stop in H as [_ H]. rewrite Hc in H.
    now apply Qltb_ge.
  - intros H. apply Qltb_ge in H. unfold train_step. now rewrite Hc, H.
Qed.




Section Threshold.

Variable seeded_doubles : pyval → result (nat → Q).



End Threshold.



(** * Further properties of the code *)

(** ** Degenerate columns *)

Lemma normalize_entry_constant (x m M : Q) :
  (x == m)%Q → (m == M)%Q → normalize_entry x m M = NaN.
Proof.
  intros Hx HM. unfold normalize_entry, nsub, nadd, nopp, ndiv.
  assert (Qzero (M + - m) = true) as -> by (apply Qzero_true; lra).
  assert (Qzero (x + - m) = true) as -> by (apply Qzero_true; lra).
  reflexivity.
Qed.

(** X1.  A column whose maximum equals its minimum is normalized to [NaN]
    in every row: the division is [0/0]. *)
Theorem normalize_constant_column_nan
    (data : list (list Q)) (k j : nat) (mn mx : Q) :
  Forall (fun row => length row = k) data →
  column_min data j mn → column_max data j mx → (mn == mx)%Q →
  ∃ nrm, normalize data = Ok nrm ∧ length nrm = length data
    ∧ ∀ i nrow, nrm !! i = Some nrow → nrow !! (S j) = Some NaN.
Proof.
  intros Hrect Hmin Hmax Heq.
  destruct (column_min_computed k data j mn Hrect Hmin)
    as (MIN & m & HMIN & HlenMIN & Hm & Em).
  destruct (column_max_computed k data j mx Hrect Hmax)
    as (MAX & M & HMAX & HlenMAX & HM & EM).
  unfold normalize. rewrite HMAX, HMIN. cbn -[normalize_row].
  eexists. split; [reflexivity|]. split; [apply length_map|].
  intros i nrow Hi. rewrite list_lookup_fmap in Hi.
  destruct (data !! i) as [row|] eqn:Hrow; [|discriminate].
  cbn -[normalize_row] in Hi. injection Hi as <-.
  assert (row ∈ data) as Hin by (eapply list_elem_of_lookup_2, Hrow).
  assert (length row = k) as Hlen.
  { rewrite Forall_forall in Hrect. now apply Hrect. }
  assert (j < k)%nat as Hj by (rewrite <- HlenMIN; eapply lookup_lt_Some, Hm).
  destruct (lookup_lt_is_Some_2 row j) as [x Hx]; [lia|].
  change (normalize_row MIN MAX row !! j = Some NaN). unfold normalize_row.
  rewrite lookup_zip_with, Hx. simpl.
  rewrite lookup_zip_with, Hm. simpl. rewrite HM. simpl.
  f_equal. apply normalize_entry_constant.
  - destruct Hmin as [_ Hlow]. destruct Hmax as [_ Hup].
    pose proof (Hlow row x Hin Hx). pose proof (Hup row x Hin Hx). lra.
  - lra.
Qed.

Lemma normalize_constant_column_witness :
  ∃ nrm, normalize [[1; 7; 0]; [2; 7; 1]]%Q = Ok nrm
         ∧ ∀ i nrow, nrm !! i = Some nrow → nrow !! 2%nat = Some NaN.
Proof.
  destruct (normalize_constant_column_nan [[1; 7; 0]; [2; 7; 1]]%Q 3 1 7%Q 7%Q)
    as (nrm & Hn & _ & H).
  - repeat constructor.
  - split.
    + exists [1; 7; 0]%Q. split; [left|reflexivity].
    + intros row x Hin Hx. repeat (apply elem_of_cons in Hin as [->|Hin]);
        try (injection Hx as <-; discriminate).
      now apply elem_of_nil in Hin.
  - split.
    + exists [1; 7; 0]%Q. split; [left|reflexivity].
    + intros row x Hin Hx. repeat (apply elem_of_cons in Hin as [->|Hin]);
        try (injection Hx as <-; discriminate).
      now apply elem_of_nil in Hin.
  - reflexivity.
  - exists nrm. split; [exact Hn | exact H].
Defined.

Lemma nmul_nan_r (a : num) : nmul a NaN = NaN.
Proof. now destruct a. Qed.

Lemma nadd_nan_r (a : num) : nadd a NaN = NaN.
Proof. now destruct a. Qed.

Lemma foldl_nadd_nan (l : list num) : foldl nadd NaN l = NaN.
Proof. induction l as [|a l IH]; [reflexivity|exact IH]. Qed.

Lemma np_sum_nan (l : list num) : NaN ∈ l → np_sum l = NaN.
Proof.
  unfold np_sum. generalize (Fin 0). induction l as [|a l IH]; intros acc Hin.
  - now apply elem_of_nil in Hin.
  - apply elem_of_cons in Hin as [<-|Hin]; simpl.
    + rewrite nadd_nan_r. apply foldl_nadd_nan.
    + now apply IH.
Qed.

Lemma weighted_sum_nan (w ex : list num) :
  length ex = length w → NaN ∈ ex → weighted_sum w ex = NaN.
Proof.
  intros Hlen Hin. apply np_sum_nan.
  apply list_elem_of_lookup in Hin as [i Hi].
  destruct (lookup_lt_is_Some_2 w i) as [a Ha].
  { rewrite <- Hlen. eapply lookup_lt_Some, Hi. }
  apply list_elem_of_lookup. exists i.
  rewrite lookup_zip_with, Ha. cbn. rewrite Hi. cbn. now rewrite nmul_nan_r.
Qed.

(** X2.  An example one of whose attributes is [NaN] gets the hypothesis 0,
    whatever the weights: the weighted sum is [NaN], which is not greater
    than 0. *)
Theorem run_model_nan_attribute
    (self : Linear) (w : list num) (exs : list (list num)) :
  Forall (fun ex => length ex = length w) exs →
  ∃ hs, run_model self w exs = Ok hs ∧ length hs = length exs
        ∧ ∀ i ex, exs !! i = Some ex → NaN ∈ ex → hs !! i = Some 0.
Proof.
  intros Hshape. exists (map (hypothesis_for w) exs).
  split; [now apply run_model_ok|]. split; [apply length_map|].
  intros i ex Hi Hin. rewrite list_lookup_fmap, Hi. cbn. f_equal.
  unfold hypothesis_for. rewrite weighted_sum_nan; [reflexivity| |exact Hin].
  rewrite Forall_forall in Hshape. apply Hshape.
  eapply list_elem_of_lookup_2, Hi.
Qed.

Lemma run_model_nan_witness :
  run_model (bare_model (1 # 10) []) [Fin 5; Fin 5; Fin 5]
    [[Fin 1; NaN; Fin 1]; [Fin 1; Fin 1; Fin 1]] = Ok [0; 1].
Proof.
  destruct (run_model_nan_attribute (bare_model (1 # 10) [])
              [Fin 5; Fin 5; Fin 5]
              [[Fin 1; NaN; Fin 1]; [Fin 1; Fin 1; Fin 1]])
    as (hs & Hr & _ & H).
  - repeat constructor.
  - rewrite Hr. vm_compute in Hr. injection Hr as <-. reflexivity.
Defined.

(** ** The range of the scores *)

Lemma mapM_result_length {A B} (f : A → result B) (l : list A) :
  ∀ l', mapM f l = Ok l' → length l' = length l.
Proof.
  induction l as [|a l IH]; intros l' H.
  - injection H as <-. reflexivity.
  - cbn in H. destruct (f a) as [b|e]; [|discriminate]. cbn in H.
    destruct (mapM f l) as [bs|e]; [|discriminate]. cbn in H.
    injection H as <-. simpl. f_equal. now apply IH.
Qed.

Lemma Zsum_flags_bounds {A B} (p : A → B → bool) (l : list A) :
  ∀ k : list B,
  0 <= Zsum (zip_with (fun a b => Zbool (p a b)) l k) <= Z.of_nat (length l).
Proof.
  induction l as [|a l IH]; intros [|b k]; cbn [zip_with length];
    rewrite ?Nat2Z.inj_succ; unfold Zsum; cbn [foldr]; try lia.
  specialize (IH k). unfold Zsum in IH.
  unfold Zbool in *. destruct (p a b); lia.
Qed.

Lemma round_half_even_between (x : Q) (n : Z) :
  (0 <= x <= inject_Z n)%Q → 0 <= round_half_even x <= n.
Proof.
  intros [H0 H1]. pose proof (round_half_even_near x) as [Hlo Hhi].
  set (r := round_half_even x) in *.
  assert (- (1 # 2) <= inject_Z r)%Q as Ha by lra.
  assert (inject_Z r <= inject_Z n + (1 # 2))%Q as Hb by lra.
  unfold Qle in Ha, Hb. simpl in Ha, Hb. lia.
Qed.

Lemma percent_range (c : Z) (n : nat) :
  n ≠ 0%nat → 0 <= c <= Z.of_nat n →
  ∃ q, percent c n = Fin q ∧ (0 <= q <= 100)%Q.
Proof.
  intros Hn Hc. rewrite percent_fin by exact Hn. eexists. split; [reflexivity|].
  unfold Qround3.
  set (x := (inject_Z c / inject_Z (Z.of_nat n) * 100 * 1000)%Q).
  assert (0 < inject_Z (Z.of_nat n))%Q as Hpos.
  { unfold Qlt. simpl. lia. }
  assert (0 <= inject_Z c / inject_Z (Z.of_nat n) <= 1)%Q as [Hf0 Hf1].
  { split.
    - apply Qle_shift_div_l; [exact Hpos|]. rewrite Qmult_0_l.
      unfold Qle. simpl. lia.
    - apply Qle_shift_div_r; [exact Hpos|]. rewrite Qmult_1_l.
      unfold Qle. simpl. lia. }
  destruct (round_half_even_between x 100000) as [Hr0 Hr1].
  { unfold x. change (inject_Z 100000) with 100000%Q. lra. }
  unfold Qdiv. change (/ 1000)%Q with (1 # 1000)%Q.
  assert (0 <= inject_Z (round_half_even x))%Q as Ha
    by (unfold Qle; simpl; lia).
  assert (inject_Z (round_half_even x) <= 100000)%Q as Hb
    by (unfold Qle; simpl; lia).
  lra.
Qed.

Lemma accuracy_inv (self : Linear) (w : list num) (exs : list (list num))
    (a : num) :
  accuracy self w exs = Ok a →
  ∃ c, 0 <= c <= Z.of_nat (length exs) ∧ a = percent c (length exs).
Proof.
  unfold accuracy. destruct (run_model _ _ _) as [h|e]; [|discriminate].
  cbn -[percent].
  destruct (mapM last_elem exs) as [labels|e] eqn:Hl; [|discriminate].
  cbn -[percent]. intros H. injection H as <-.
  apply mapM_result_length in Hl. rewrite <- Hl.
  eexists. split; [|reflexivity].
  apply (Zsum_flags_bounds (fun l hi => neqb l (Fin (inject_Z hi)))).
Qed.

Lemma error_inv (self : Linear) (w : list num) (exs : list (list num))
    (a : num) :
  error self w exs = Ok a →
  ∃ c, 0 <= c <= Z.of_nat (length exs) ∧ a = percent c (length exs).
Proof.
  unfold error. destruct (run_model _ _ _) as [h|e]; [|discriminate].
  cbn -[percent].
  destruct (mapM last_elem exs) as [labels|e] eqn:Hl; [|discriminate].
  cbn -[percent]. intros H. injection H as <-.
  apply mapM_result_length in Hl. rewrite <- Hl.
  eexists. split; [|reflexivity].
  apply (Zsum_flags_bounds (fun l hi => negb (neqb l (Fin (inject_Z hi))))).
Qed.

(** X3.  The scores that [accuracy] and [error] return are [NaN] on a set
    without examples, and numbers between 0 and 100 on any other set. *)
Theorem scores_nan_or_percent
    (self : Linear) (w : list num) (exs : list (list num)) (a e : num) :
  accuracy self w exs = Ok a → error self w exs = Ok e →
  (exs = [] → a = NaN ∧ e = NaN)
  ∧ (exs ≠ [] → ∃ qa qe, a = Fin qa ∧ e = Fin qe
                         ∧ (0 <= qa <= 100)%Q ∧ (0 <= qe <= 100)%Q).
Proof.
  intros Ha He.
  destruct (accuracy_inv _ _ _ _ Ha) as (ca & Hca & ->).
  destruct (error_inv _ _ _ _ He) as (ce & Hce & ->).
  split.
  - intros ->. simpl in Hca, Hce.
    assert (ca = 0) as -> by lia. assert (ce = 0) as -> by lia.
    split; reflexivity.
  - intros Hne.
    assert (length exs ≠ 0%nat) as Hn by (destruct exs; simpl; congruence).
    destruct (percent_range ca _ Hn Hca) as (qa & -> & Hqa).
    destruct (percent_range ce _ Hn Hce) as (qe & -> & Hqe).
    exists qa, qe. auto.
Qed.

Lemma scores_nan_or_percent_witness :
  accuracy (bare_model (1 # 10) []) [Fin 1; Fin 1] [] = Ok NaN
  ∧ ∃ q, accuracy (bare_model (1 # 10) []) [Fin (-1); Fin (1 # 2)]
           [[Fin 1; Fin (1 # 5); Fin 1]; [Fin 1; Fin 3; Fin 1]] = Ok (Fin q)
         ∧ (0 <= q <= 100)%Q.
Proof.
  split; [reflexivity|].
  destruct (accuracy (bare_model (1 # 10) []) [Fin (-1); Fin (1 # 2)]
              [[Fin 1; Fin (1 # 5); Fin 1]; [Fin 1; Fin 3; Fin 1]])
    as [a|x] eqn:Ha; [|vm_compute in Ha; discriminate].
  destruct (error (bare_model (1 # 10) []) [Fin (-1); Fin (1 # 2)]
              [[Fin 1; Fin (1 # 5); Fin 1]; [Fin 1; Fin 3; Fin 1]])
    as [e|x] eqn:He; [|vm_compute in He; discriminate].
  destruct (scores_nan_or_percent _ _ _ _ _ Ha He) as [_ H].
  destruct H as (qa & qe & -> & _ & Hqa & _); [discriminate|].
  exists qa. split; [reflexivity | exact Hqa].
Defined.

(** ** Exceptions of the array operations *)

Lemma broadcast2_exn f (a b : list num) (e : exn) :
  broadcast2 f a b = Raise e → shape_error e.
Proof.
  unfold broadcast2. destruct (_ =? _)%nat; [discriminate|].
  destruct a as [|x [|? ?]]; destruct b as [|y [|? ?]];
    try discriminate; intros H; injection H as <-; exact I.
Qed.

Lemma mapM_result_exn {A B} (f : A → result B) (l : list A) (e : exn) :
  mapM f l = Raise e → ∃ a, a ∈ l ∧ f a = Raise e.
Proof.
  induction l as [|a l IH]; [discriminate|]. cbn.
  destruct (f a) as [b|e'] eqn:Ha; cbn.
  - destruct (mapM f l) as [bs|e'']; cbn; [discriminate|].
    intros H. injection H as ->. destruct IH as (a' & Hin & Ha'); [reflexivity|].
    exists a'. split; [now right | exact Ha'].
  - intros H. injection H as ->. exists a. split; [left | exact Ha].
Qed.

Lemma run_model_exn (self : Linear) (w : list num) (exs : list (list num))
    (e : exn) :
  run_model self w exs = Raise e → shape_error e.
Proof.
  intros H. apply mapM_result_exn in H as (ex & _ & H).
  destruct (broadcast2 nmul w ex) as [p|e'] eqn:Hb; [discriminate|].
  cbn in H. injection H as <-. eapply broadcast2_exn, Hb.
Qed.

Lemma labels_exn (exs : list (list num)) (e : exn) :
  mapM last_elem exs = Raise e → shape_error e.
Proof.
  intros H. apply mapM_result_exn in H as (ex & _ & H).
  unfold last_elem in H. destruct (last ex); [discriminate|].
  injection H as <-. exact I.
Qed.

Lemma accuracy_exn (self : Linear) (w : list num) (exs : list (list num))
    (e : exn) :
  accuracy self w exs = Raise e → shape_error e.
Proof.
  unfold accuracy. destruct (run_model _ _ _) as [h|e'] eqn:Hr.
  - cbn -[percent]. destruct (mapM last_elem exs) as [l|e'] eqn:Hl;
      cbn -[percent]; [discriminate|].
    intros H. injection H as <-. eapply labels_exn, Hl.
  - cbn. intros H. injection H as <-. eapply run_model_exn, Hr.
Qed.

Lemma error_exn (self : Linear) (w : list num) (exs : list (list num))
    (e : exn) :
  error self w exs = Raise e → shape_error e.
Proof.
  unfold error. destruct (run_model _ _ _) as [h|e'] eqn:Hr.
  - cbn -[percent]. destruct (mapM last_elem exs) as [l|e'] eqn:Hl;
      cbn -[percent]; [discriminate|].
    intros H. injection H as <-. eapply labels_exn, Hl.
  - cbn. intros H. injection H as <-. eapply run_model_exn, Hr.
Qed.

Lemma test_exn (b : bool) (s : Linear) (e : exn) :
  test b s = Raise e → shape_error e.
Proof.
  unfold test. destruct (accuracy _ _ _) as [a|e'] eqn:Ha.
  - cbn -[error]. destruct (error _ _ _) as [r|e'] eqn:He; cbn; [discriminate|].
    intros H. injection H as <-. eapply error_exn, He.
  - cbn. intros H. injection H as <-. eapply accuracy_exn, Ha.
Qed.

Lemma train_example_exn (s : Linear) (ex : list num) (e : exn) :
  train_example s ex = Raise e → shape_error e.
Proof.
  unfold train_example, last_elem. destruct (last ex) as [label|].
  - cbn -[run_model adjust_weights].
    destruct (run_model s (weights s) [but_last ex]) as [h|e'] eqn:Hr.
    + cbn -[adjust_weights]. unfold adjust_weights.
      destruct (broadcast2 nmul _ _) as [delta|e'] eqn:H1.
      * cbn -[broadcast2].
        destruct (broadcast2 nadd _ _) as [ws|e'] eqn:H2; cbn; [discriminate|].
        intros H. injection H as <-. eapply broadcast2_exn, H2.
      * cbn. intros H. injection H as <-. eapply broadcast2_exn, H1.
    + cbn. intros H. injection H as <-. eapply run_model_exn, Hr.
  - cbn. intros H. injection H as <-. exact I.
Qed.

Lemma train_epoch_exn (exs : list (list num)) : ∀ (s : Linear) (e : exn),
  foldM train_example s exs = Raise e → shape_error e.
Proof.
  induction exs as [|ex exs IH]; intros s e; [discriminate|].
  cbn -[train_example]. destruct (train_example s ex) as [s1|e'] eqn:H1.
  - cbn -[train_example]. apply IH.
  - cbn. intros H. injection H as <-. eapply train_example_exn, H1.
Qed.

(** ** One step of the loop, in full *)

Lemma train_step_next_eq (s s' : Linear) :
  train_step s = Next s' →
  ∃ ws acc err,
    foldM train_example (count_epoch s) (read_view (trainSS s) (norm s))
    = Ok (with_weights ws (count_epoch s))
    ∧ test true (with_weights ws (count_epoch s)) = Ok (acc, err)
    ∧ s' = with_run (epoch_num s + 1) (train_accs s ++ [acc]) acc err
             (testAcc s) (testErr s) (with_weights ws (count_epoch s)).
Proof.
  unfold train_step. destruct (nlt _ _); [|discriminate].
  destruct (_ >? _); [discriminate|].
  change (read_view (trainSS (count_epoch s)) (norm (count_epoch s)))
    with (read_view (trainSS s) (norm s)).
  destruct (foldM train_example _ _) as [s2|e] eqn:Hfold; [|discriminate].
  destruct (train_epoch_frame _ _ _ Hfold) as (ws & ->).
  cbn -[test]. destruct (test true _) as [[acc err]|e] eqn:Htest;
    [|discriminate].
  cbn. intros H. injection H as <-. exists ws, acc, err. auto.
Qed.

Lemma train_step_abort (s : Linear) (e : exn) :
  train_step s = Abort e →
  (e = SystemExit (max_epochs s) ∧ epoch_num s + 1 > max_epochs s)
  ∨ shape_error e.
Proof.
  unfold train_step. destruct (nlt _ _); [|discriminate].
  cbn [epoch_num max_epochs with_run count_epoch].
  destruct (Z.gtb_spec (epoch_num s + 1) (max_epochs s)) as [Hgt|Hle].
  - intros H. injection H as <-. left. split; [reflexivity|lia].
  - fold (count_epoch s).
    destruct (foldM train_example _ _) as [s2|e'] eqn:Hfold.
    + cbn -[test]. destruct (test true s2) as [[acc err]|e'] eqn:Htest;
        cbn; [discriminate|].
      intros H. injection H as <-. right. eapply test_exn, Htest.
    + cbn. intros H. injection H as <-. right. eapply train_epoch_exn, Hfold.
Qed.

(** ** The shape of the object *)

Lemma read_view_Forall {A} (P : A → Prop) (v : view) (buf : list A) :
  Forall P buf → Forall P (read_view v buf).
Proof. intros H. unfold read_view. now apply Forall_take, Forall_drop. Qed.

Lemma length_online_epoch (lr : Q) (exs : list (list num)) : ∀ w,
  Forall (fun ex => length ex = S (length w)) exs →
  length (online_epoch lr w exs) = length w.
Proof.
  induction exs as [|ex exs IH]; intros w H; [reflexivity|].
  apply Forall_cons in H as [Hex Hexs]. unfold online_epoch in *. simpl.
  assert (length (delta_rule lr w (but_last ex) (label_of ex)) = length w)
    as Hlen.
  { apply length_delta_rule.
    now destruct (split_last_row ex _ Hex) as (_ & ? & _). }
  rewrite IH; [exact Hlen|]. now rewrite Hlen.
Qed.

Lemma test_ok (b : bool) (s : Linear) :
  well_shaped s → ∃ acc err, test b s = Ok (acc, err).
Proof.
  intros Hs. unfold test.
  set (ds := read_view _ _).
  assert (Forall (fun ex => length ex = S (length (weights s))) ds) as Hds
    by now apply read_view_Forall.
  rewrite accuracy_ok, error_ok by exact Hds. eauto.
Qed.

Lemma train_step_shaped (s : Linear) :
  well_shaped s →
  match train_step s with
  | Stop s' => s' = s
  | Next s' => well_shaped s' ∧ length (weights s') = length (weights s)
  | Abort e => e = SystemExit (max_epochs s)
  end.
Proof.
  intros Hs. destruct (train_step s) as [s'|s'|e] eqn:Hstep.
  - now destruct (train_step_stop _ _ Hstep).
  - destruct (train_step_next_eq _ _ Hstep) as (ws & acc & err & Hf & _ & ->).
    rewrite train_epoch_ok in Hf by (now apply read_view_Forall).
    injection Hf as <-. cbn [eta weights count_epoch with_run].
    assert (length (online_epoch (eta s) (weights s)
                      (read_view (trainSS s) (norm s)))
            = length (weights s)) as Hlen
      by (apply length_online_epoch; now apply read_view_Forall).
    split; [|exact Hlen]. unfold well_shaped. cbn. now rewrite Hlen.
  - destruct (train_step_abort _ _ Hstep) as [[-> _]|Herr]; [reflexivity|].
    exfalso. unfold train_step in Hstep.
    destruct (nlt _ _); [|discriminate].
    destruct (_ >? _); [injection Hstep as <-; exact Herr|].
    change (read_view (trainSS (count_epoch s)) (norm (count_epoch s)))
      with (read_view (trainSS s) (norm s)) in Hstep.
    rewrite (train_epoch_ok _ (count_epoch s)) in Hstep
      by (now apply read_view_Forall).
    cbn -[test] in Hstep.
    match type of Hstep with
    | context [test true ?m] =>
        destruct (test_ok true m) as (acc & err & Ht)
    end.
    { unfold well_shaped. cbn. rewrite length_online_epoch; [exact Hs|].
      now apply read_view_Forall. }
    rewrite Ht in Hstep. discriminate.
Qed.

Lemma train_loop_shaped (fuel : nat) : ∀ (s : Linear) r checks,
  well_shaped s → train_loop fuel s = Some (r, checks) →
  (∃ s', r = Ok s' ∧ well_shaped s'
         ∧ length (weights s') = length (weights s))
  ∨ r = Raise (SystemExit (max_epochs s)).
Proof.
  induction fuel as [|fuel IH]; intros s r checks Hs H; [discriminate|].
  cbn [train_loop] in H. pose proof (train_step_shaped s Hs) as Hstep.
  destruct (train_step s) as [s1|s1|e] eqn:E.
  - injection H as <- _. subst s1. left. eauto.
  - destruct Hstep as [Hs1 Hlen].
    destruct (train_step_next _ _ E) as (_ & _ & _ & HM & _).
    destruct (train_loop fuel s1) as [[r1 c1]|] eqn:Hloop; [|discriminate].
    injection H as <- _.
    destruct (IH _ _ _ Hs1 Hloop) as [(s' & -> & Hs' & Hl)| ->].
    + left. exists s'. repeat split; auto. congruence.
    + right. now rewrite HM.
  - injection H as <- _. right. now rewrite Hstep.
Qed.

Lemma train_shaped_outcome (self : Linear) :
  well_shaped self →
  ∃ r checks, train self = Some (r, checks)
    ∧ ((∃ s', r = Ok s' ∧ well_shaped s'
              ∧ length (weights s') = length (weights self))
       ∨ r = Raise (SystemExit (max_epochs self))).
Proof.
  intros Hs. destruct (train_total self) as (r & checks & Ht).
  exists r, checks. split; [exact Ht|]. unfold train in Ht.
  destruct (train_entry self) as [self0|e] eqn:Hentry.
  - destruct (train_entry_inv _ _ Hentry) as (_ & HM & _ & Hn & _).
    assert (well_shaped self0 ∧ weights self0 = weights self) as [Hs0 Hw0].
    { unfold train_entry in Hentry.
      destruct (test true _) as [[acc err]|e]; [|discriminate].
      cbn in Hentry. injection Hentry as <-. split; [exact Hs|reflexivity]. }
    destruct (train_loop _ self0) as [[r1 c1]|] eqn:Hloop; [|discriminate].
    destruct (train_loop_shaped _ _ _ _ Hs0 Hloop)
      as [(s1 & -> & Hs1 & Hl1)| ->].
    + injection Ht as <- _. left.
      destruct (test_ok false s1 Hs1) as (acc & err & Htest).
      unfold train_exit. rewrite Htest. cbn.
      eexists. split; [reflexivity|]. split; [exact Hs1|]. cbn. congruence.
    + injection Ht as <- _. right. now rewrite HM.
  - exfalso. unfold train_entry in Hentry.
    match type of Hentry with
    | context [test true ?m] => destruct (test_ok true m Hs) as (a & b & Ht')
    end.
    rewrite Ht' in Hentry. discriminate.
Qed.

(** X4.  On an object of the shape that [initialize] establishes, [train]
    raises nothing but the exit for non-convergence: it returns either the
    trained object, whose weights are as many as before, or [SystemExit]
    with the epoch budget. *)
Theorem train_raises_only_exit (self : Linear) :
  well_shaped self →
  ∃ r checks, train self = Some (r, checks)
    ∧ ((∃ s', r = Ok s' ∧ well_shaped s'
              ∧ length (weights s') = length (weights self))
       ∨ r = Raise (SystemExit (max_epochs self))).
Proof. intros Hs. exact (train_shaped_outcome self Hs). Qed.

Lemma train_raises_only_exit_witness :
  ∃ checks, train (example_model 2) = Some (Raise (SystemExit 2), checks).
Proof.
  destruct (train_raises_only_exit (example_model 2)) as (r & checks & Ht & _).
  - repeat constructor.
  - exists checks. rewrite Ht. vm_compute in Ht. injection Ht as <- <-.
    reflexivity.
Defined.

(** ** What [train] leaves alone *)

Lemma same_setup_refl (s : Linear) : same_setup s s.
Proof. unfold same_setup. repeat split. Qed.

Lemma same_setup_trans (s1 s2 s3 : Linear) :
  same_setup s1 s2 → same_setup s2 s3 → same_setup s1 s3.
Proof.
  unfold same_setup. intros H1 H2.
  destruct H1 as (? & ? & ? & ? & ? & ? & ? & ? & ? & ? & ?).
  destruct H2 as (? & ? & ? & ? & ? & ? & ? & ? & ? & ? & ?).
  repeat split; congruence.
Qed.

Lemma train_step_setup (s s' : Linear) :
  train_step s = Next s' → same_setup s s'.
Proof.
  intros H. destruct (train_step_next_eq _ _ H) as (ws & acc & err & _ & _ & ->).
  unfold same_setup. repeat split.
Qed.

Lemma train_loop_setup (fuel : nat) : ∀ (s s' : Linear) (checks : nat),
  train_loop fuel s = Some (Ok s', checks) → same_setup s s'.
Proof.
  induction fuel as [|fuel IH]; intros s s' checks H; [discriminate|].
  cbn [train_loop] in H. destruct (train_step s) as [s1|s1|e] eqn:E.
  - injection H as <- _. destruct (train_step_stop _ _ E) as [-> _].
    apply same_setup_refl.
  - destruct (train_loop fuel s1) as [[r c]|] eqn:Hloop; [|discriminate].
    injection H as -> _.
    eapply same_setup_trans; [eapply train_step_setup, E | eapply IH, Hloop].
  - discriminate.
Qed.

Lemma train_entry_eq (self self0 : Linear) :
  train_entry self = Ok self0 →
  ∃ acc err,
    test true self = Ok (acc, err)
    ∧ self0 = with_run 0 [acc] acc err (testAcc self) (testErr self) self.
Proof.
  unfold train_entry.
  change (test true (with_run 0 [] (trainAcc self) (trainErr self)
                       (testAcc self) (testErr self) self))
    with (test true self).
  destruct (test true self) as [[acc err]|e]; [|discriminate].
  cbn. intros H. injection H as <-. eauto.
Qed.

Lemma train_exit_eq (s s' : Linear) :
  train_exit s = Ok s' →
  ∃ acc err,
    test false s = Ok (acc, err)
    ∧ s' = with_run (epoch_num s) (train_accs s) (trainAcc s) (trainErr s)
             acc err s.
Proof.
  unfold train_exit. destruct (test false s) as [[acc err]|e]; [|discriminate].
  cbn. intros H. injection H as <-. eauto.
Qed.

Lemma train_converged_inv (self s' : Linear) (checks : nat) :
  train self = Some (Ok s', checks) →
  ∃ self0 s1,
    train_entry self = Ok self0
    ∧ train_loop (train_fuel self0) self0 = Some (Ok s1, checks)
    ∧ train_exit s1 = Ok s'.
Proof.
  unfold train. destruct (train_entry self) as [self0|e]; [|discriminate].
  destruct (train_loop _ self0) as [[[s1|e] c]|] eqn:Hl; try discriminate.
  intros H. injection H as H <-. exists self0, s1. auto.
Qed.

(** X5.  A run of [train] that converges changes the weights and what the
    run records, and nothing else: the configuration, the seed, the data,
    the normalized rows and the split are those of before. *)
Theorem train_keeps_setup (self s' : Linear) (checks : nat) :
  train self = Some (Ok s', checks) → same_setup self s'.
Proof.
  intros H. destruct (train_converged_inv _ _ _ H) as (self0 & s1 & He & Hl & Hx).
  destruct (train_entry_eq _ _ He) as (a & b & _ & ->).
  destruct (train_exit_eq _ _ Hx) as (c & d & _ & ->).
  apply train_loop_setup in Hl.
  eapply same_setup_trans; [|eapply same_setup_trans; [exact Hl|]];
    unfold same_setup; repeat split.
Qed.

Lemma train_keeps_setup_witness :
  ∃ s' checks, train (example_model 5) = Some (Ok s', checks)
               ∧ norm s' = norm (example_model 5)
               ∧ trainSS s' = trainSS (example_model 5).
Proof.
  destruct (train (example_model 5)) as [[[s'|e] checks]|] eqn:Ht;
    vm_compute in Ht; try discriminate.
  assert (train (example_model 5) = Some (Ok s', checks)) as Ht'
    by (rewrite <- Ht; vm_compute; reflexivity).
  destruct (train_keeps_setup _ _ _ Ht')
    as (_ & _ & _ & _ & _ & _ & _ & Hn & _ & Htr & _).
  exists s', checks. auto.
Defined.

(** ** The history and the scores of a run *)

Lemma test_frame (b : bool) (s : Linear) (e : Z) (h : list num)
    (a1 a2 a3 a4 : num) :
  test b (with_run e h a1 a2 a3 a4 s) = test b s.
Proof. reflexivity. Qed.

Lemma train_step_current (s s' : Linear) :
  scores_current s → train_step s = Next s' → scores_current s'.
Proof.
  intros (Hlen & _ & _) H.
  destruct (train_step_next_eq _ _ H) as (ws & acc & err & _ & Ht & ->).
  unfold scores_current. cbn [train_accs epoch_num trainAcc trainErr with_run].
  rewrite test_frame. split; [|split; [apply last_snoc | exact Ht]].
  rewrite length_app. simpl. lia.
Qed.

Lemma train_loop_current (fuel : nat) : ∀ (s s' : Linear) (checks : nat),
  scores_current s → train_loop fuel s = Some (Ok s', checks) →
  scores_current s'
  ∧ epoch_num s' + 1 = epoch_num s + Z.of_nat checks.
Proof.
  induction fuel as [|fuel IH]; intros s s' checks Hs H; [discriminate|].
  cbn [train_loop] in H. destruct (train_step s) as [s1|s1|e] eqn:E.
  - injection H as <- <-. destruct (train_step_stop _ _ E) as [-> _].
    split; [exact Hs|lia].
  - destruct (train_loop fuel s1) as [[r c]|] eqn:Hloop; [|discriminate].
    injection H as -> <-.
    destruct (IH _ _ _ (train_step_current _ _ Hs E) Hloop) as [Hs' He].
    destruct (train_step_next _ _ E) as (_ & _ & He1 & _).
    split; [exact Hs'|lia].
  - discriminate.
Qed.

(** X6.  When [train] converges, the object is consistent with the run: the
    epoch counter is the number of evaluations of the loop condition minus
    one, the history has one entry more than there were epochs, its last
    entry is [trainAcc], and the four scores are those of the final weights
    on the training and on the testing subset. *)
Theorem train_records_final_scores (self s' : Linear) (checks : nat) :
  train self = Some (Ok s', checks) →
  epoch_num s' + 1 = Z.of_nat checks
  ∧ Z.of_nat (length (train_accs s')) = epoch_num s' + 1
  ∧ last (train_accs s') = Some (trainAcc s')
  ∧ test true s' = Ok (trainAcc s', trainErr s')
  ∧ test false s' = Ok (testAcc s', testErr s').
Proof.
  intros H. destruct (train_converged_inv _ _ _ H) as (self0 & s1 & He & Hl & Hx).
  destruct (train_entry_eq _ _ He) as (a & b & Ht & ->).
  destruct (train_exit_eq _ _ Hx) as (c & d & Hf & ->).
  assert (scores_current
            (with_run 0 [a] a b (testAcc self) (testErr self) self)) as Hcur.
  { unfold scores_current.
    cbn [train_accs epoch_num trainAcc trainErr with_run].
    rewrite test_frame. repeat split. exact Ht. }
  destruct (train_loop_current _ _ _ _ Hcur Hl) as [(H1 & H2 & H3) H4].
  cbn [epoch_num with_run] in H4.
  cbn [epoch_num train_accs trainAcc trainErr testAcc testErr with_run].
  rewrite !test_frame. repeat split; auto; lia.
Qed.

Lemma train_records_witness :
  ∃ s', train (example_model 5) = Some (Ok s', 5%nat)
        ∧ epoch_num s' = 4 ∧ length (train_accs s') = 5%nat.
Proof.
  destruct (train (example_model 5)) as [[[s'|e] checks]|] eqn:Ht;
    vm_compute in Ht; try discriminate.
  assert (train (example_model 5) = Some (Ok s', checks)) as Ht'
    by (rewrite <- Ht; vm_compute; reflexivity).
  destruct (train_records_final_scores _ _ _ Ht') as (H1 & H2 & _).
  injection Ht as Hs' <-. exists s'. split; [reflexivity|].
  split; lia.
Defined.

(** ** Running out of epochs *)

Lemma train_loop_exit (fuel : nat) : ∀ (s : Linear) (n : Z) (checks : nat),
  epoch_num s <= max_epochs s →
  train_loop fuel s = Some (Raise (SystemExit n), checks) →
  n = max_epochs s ∧ epoch_num s + Z.of_nat checks = max_epochs s + 1.
Proof.
  induction fuel as [|fuel IH]; intros s n checks Hle H; [discriminate|].
  cbn [train_loop] in H. destruct (train_step s) as [s1|s1|e] eqn:E.
  - discriminate.
  - destruct (train_loop fuel s1) as [[r c]|] eqn:Hloop; [|discriminate].
    injection H as -> <-.
    destruct (train_step_next _ _ E) as (_ & Hb & He & HM & _).
    assert (epoch_num s1 <= max_epochs s1) as Hle1 by lia.
    destruct (IH _ _ _ Hle1 Hloop) as [-> Hc].
    split; [exact HM|lia].
  - injection H as -> <-.
    destruct (train_step_abort _ _ E) as [[Hn Hgt]|Herr]; [|destruct Herr].
    injection Hn as ->. split; [reflexivity|lia].
Qed.

(** X7.  With a non-negative budget, the exit for non-convergence happens
    only once the budget is used up: the loop condition has then been
    evaluated exactly [max_epochs + 1] times, that is after [max_epochs]
    full epochs, and the exit carries [max_epochs]. *)
Theorem train_exits_after_budget (self : Linear) (n : Z) (checks : nat) :
  0 <= max_epochs self →
  train self = Some (Raise (SystemExit n), checks) →
  n = max_epochs self ∧ Z.of_nat checks = max_epochs self + 1.
Proof.
  intros HM. unfold train.
  destruct (train_entry self) as [self0|e] eqn:Hentry.
  - destruct (train_entry_inv _ _ Hentry) as (He & HM0 & _).
    destruct (train_loop _ self0) as [[[s1|e] c]|] eqn:Hloop;
      try discriminate.
    + intros H. injection H as H _. unfold train_exit in H.
      destruct (test false s1) as [[a b]|e'] eqn:Ht; [discriminate|].
      cbn in H. injection H as ->. now apply test_exn in Ht.
    + intros H. injection H as -> <-.
      assert (epoch_num self0 <= max_epochs self0) as Hle0 by lia.
      destruct (train_loop_exit _ _ _ _ Hle0 Hloop) as [-> Hc].
      split; [exact HM0|lia].
  - intros H. injection H as -> _. unfold train_entry in Hentry.
    destruct (test true _) as [[a b]|e'] eqn:Ht; [discriminate|].
    cbn in Hentry. injection Hentry as ->. now apply test_exn in Ht.
Qed.

Lemma train_exits_witness :
  train (example_model 2) = Some (Raise (SystemExit 2), 3%nat).
Proof.
  destruct (train (example_model 2)) as [[[s'|[m|m| |n]] checks]|] eqn:Ht;
    vm_compute in Ht; try discriminate.
  assert (train (example_model 2) = Some (Raise (SystemExit n), checks))
    as Ht' by (rewrite <- Ht; vm_compute; reflexivity).
  destruct (train_exits_after_budget (example_model 2) n checks) as [-> Hc];
    [vm_compute; discriminate | exact Ht' |].
  change (max_epochs (example_model 2)) with 2 in *.
  repeat f_equal. lia.
Defined.

(** ** Thresholds out of reach, thresholds already met *)

Lemma Qsum_le_100 (l : list Q) :
  Forall (fun a => 0 <= a <= 100)%Q l →
  (foldr Qplus 0 l <= 100 * inject_Z (Z.of_nat (length l)))%Q.
Proof.
  induction 1 as [|a l [_ Ha] _ IH].
  - cbn [foldr length]. change (inject_Z (Z.of_nat 0)) with 0%Q. lra.
  - cbn [foldr length]. rewrite Nat2Z.inj_succ, <- Z.add_1_r, inject_Z_plus.
    change (inject_Z 1) with 1%Q. lra.
Qed.

Lemma Qmean_le_100 (l : list Q) :
  l ≠ [] → Forall (fun a => 0 <= a <= 100)%Q l → (Qmean l <= 100)%Q.
Proof.
  intros Hne Hl. unfold Qmean. apply Qle_shift_div_r.
  - destruct l; [done|]. unfold Qlt. simpl. lia.
  - now apply Qsum_le_100.
Qed.

Lemma trailing_window_Forall (P : Q → Prop) (accs : list Q) :
  Forall P accs → Forall P (trailing_window accs).
Proof.
  intros H. unfold trailing_window. destruct (_ <? _)%nat; [exact H|].
  now apply Forall_drop.
Qed.

Lemma accuracy_percent (self : Linear) (w : list num) (exs : list (list num))
    (a : num) :
  exs ≠ [] → accuracy self w exs = Ok a →
  ∃ q, a = Fin q ∧ (0 <= q <= 100)%Q.
Proof.
  intros Hne Ha. destruct (accuracy_inv _ _ _ _ Ha) as (c & Hc & ->).
  apply percent_range; [|exact Hc]. destruct exs; simpl; congruence.
Qed.

Lemma train_step_percent (s s' : Linear) :
  percent_history s → train_step s = Next s' →
  percent_history s' ∧ threshold s' = threshold s.
Proof.
  intros [Hne (accs & Hacc & Haccs & Hall)] Hstep.
  destruct (train_step_next _ _ Hstep)
    as (_ & _ & _ & _ & Hthr & Hnorm & Htr & ws & acc & _ & Ha & _ & Hhist).
  destruct (accuracy_percent _ _ _ _ Hne Ha) as (q & -> & Hq).
  split; [|exact Hthr]. split; [now rewrite Hnorm, Htr|].
  exists (accs ++ [q]). split; [now destruct accs|].
  split; [now rewrite Hhist, Haccs, map_app|].
  apply Forall_app. split; [exact Hall|]. now constructor.
Qed.

Lemma train_step_out_of_reach (s s' : Linear) :
  percent_history s → (100 < threshold s)%Q → train_step s ≠ Stop s'.
Proof.
  intros [_ (accs & Hacc & Haccs & Hall)] Hthr Hstop.
  destruct (train_step_stop _ _ Hstop) as [-> _].
  apply (train_step_stop_iff s accs Hacc Haccs) in Hstop.
  pose proof (Qmean_le_100 (trailing_window accs)
                (trailing_window_nonempty _ Hacc)
                (trailing_window_Forall _ _ Hall)) as Hm.
  unfold trailing_mean in Hstop. lra.
Qed.

Lemma train_loop_out_of_reach (fuel : nat) : ∀ (s s' : Linear) (checks : nat),
  percent_history s → (100 < threshold s)%Q →
  train_loop fuel s ≠ Some (Ok s', checks).
Proof.
  induction fuel as [|fuel IH]; intros s s' checks Hs Hthr H; [discriminate|].
  cbn [train_loop] in H. destruct (train_step s) as [s1|s1|e] eqn:E.
  - now apply (train_step_out_of_reach s s1).
  - destruct (train_step_percent _ _ Hs E) as [Hs1 Hthr1].
    destruct (train_loop fuel s1) as [[r c]|] eqn:Hloop; [|discriminate].
    injection H as -> _. apply (IH s1 s' c); auto. now rewrite Hthr1.
  - discriminate.
Qed.

(** X8.  A threshold above 100 percent is out of reach: on a well-shaped
    object with a non-empty training subset and a non-negative budget,
    [train] runs all its epochs and ends in the exit for non-convergence. *)
Theorem threshold_above_100_never_converges (self : Linear) :
  (100 < threshold self)%Q → well_shaped self →
  read_view (trainSS self) (norm self) ≠ [] → 0 <= max_epochs self →
  ∃ checks, train self = Some (Raise (SystemExit (max_epochs self)), checks)
            ∧ Z.of_nat checks = max_epochs self + 1.
Proof.
  intros Hthr Hs Hne HM. unfold train.
  destruct (test_ok true self Hs) as (acc & err & Ht).
  assert (train_entry self
          = Ok (with_run 0 [acc] acc err (testAcc self) (testErr self) self))
    as Hentry.
  { unfold train_entry. rewrite test_frame, Ht. reflexivity. }
  rewrite Hentry.
  set (self0 := with_run 0 [acc] acc err (testAcc self) (testErr self) self).
  apply test_train_inv in Ht.
  destruct (accuracy_percent _ _ _ _ Hne Ht) as (q & -> & Hq).
  assert (percent_history self0) as Hp.
  { split; [exact Hne|]. exists [q]. repeat split; auto. }
  destruct (train_loop_total (train_fuel self0) self0) as (r & c & Hl & _).
  { cbn. lia. }
  { unfold train_fuel. cbn. lia. }
  rewrite Hl.
  destruct (train_loop_shaped _ self0 _ _ Hs Hl) as [(s1 & -> & _)| ->].
  - now destruct (train_loop_out_of_reach _ _ _ _ Hp Hthr Hl).
  - destruct (train_loop_exit _ self0 _ _ ltac:(cbn; lia) Hl) as [_ Hc].
    exists c. split; [reflexivity|]. cbn in Hc. lia.
Qed.

Lemma threshold_above_100_witness :
  train (set_threshold (11 # 10) (example_model 2))
  = Some (Raise (SystemExit 2), 3%nat).
Proof.
  destruct (threshold_above_100_never_converges
              (set_threshold (11 # 10) (example_model 2)))
    as (checks & Ht & Hc).
  - reflexivity.
  - repeat constructor.
  - vm_compute. intros E. discriminate E.
  - vm_compute. discriminate.
  - rewrite Ht. change (max_epochs _) with 2 in *. repeat f_equal. lia.
Defined.

(** X9.  When the weights already score at least the threshold on the
    training subset, [train] evaluates the loop condition once and runs no
    epoch: the weights stay as they are, the epoch counter is 0 and the
    history holds the one score recorded at entry. *)
Theorem train_on_adequate_weights (self : Linear) (a : Q) :
  well_shaped self →
  accuracy self (weights self) (read_view (trainSS self) (norm self))
  = Ok (Fin a) →
  (threshold self <= a)%Q →
  ∃ s', train self = Some (Ok s', 1%nat)
        ∧ weights s' = weights self ∧ epoch_num s' = 0
        ∧ train_accs s' = [Fin a].
Proof.
  intros Hs Ha Hthr. unfold train.
  destruct (test_ok true self Hs) as (acc & err & Ht).
  pose proof (test_train_inv _ _ _ Ht) as Ha'. rewrite Ha in Ha'.
  injection Ha' as <-.
  assert (train_entry self
          = Ok (with_run 0 [Fin a] (Fin a) err (testAcc self) (testErr self)
                  self)) as ->.
  { unfold train_entry. rewrite test_frame, Ht. reflexivity. }
  set (self0 := with_run 0 [Fin a] _ _ _ _ self).
  assert (train_step self0 = Stop self0) as Hstop.
  { apply (train_step_stop_iff self0 [a]); [done|reflexivity|].
    unfold trailing_mean, trailing_window, Qmean. cbn.
    assert ((a + 0) / 1 == a)%Q as -> by field. exact Hthr. }
  unfold train_fuel. rewrite Nat.add_1_r. cbn [train_loop]. rewrite Hstop.
  destruct (test_ok false self0 Hs) as (tacc & terr & Htest).
  unfold train_exit. rewrite Htest. cbn.
  eexists. split; [reflexivity|]. repeat split.
Qed.

Lemma train_on_adequate_witness :
  ∃ s', train (set_threshold (1 # 2) (example_model 5)) = Some (Ok s', 1%nat)
        ∧ weights s' = weights (example_model 5) ∧ epoch_num s' = 0.
Proof.
  destruct (train_on_adequate_weights
              (set_threshold (1 # 2) (example_model 5))
              (Qround3 (2 / 3 * 100))) as (s' & Ht & Hw & He & _).
  - repeat constructor.
  - vm_compute. reflexivity.
  - vm_compute. discriminate.
  - exists s'. auto.
Defined.

(** ** Examples that are classified correctly *)

Lemma zero_update_same (z : Q) (qw : list Q) : ∀ qa : list Q,
  (z == 0)%Q →
  Forall2 same_num
    (zip_with (fun wi ai => nadd wi (nmul (Fin z) ai)) (map Fin qw)
       (map Fin qa))
    (take (length qa) (map Fin qw)).
Proof.
  induction qw as [|x qw IH]; intros [|a qa] Hz; simpl; try constructor.
  - simpl. rewrite Hz. ring.
  - now apply IH.
Qed.

Lemma neqb_fin (label : num) (q : Q) :
  neqb label (Fin q) = true → ∃ l, label = Fin l ∧ (l == q)%Q.
Proof.
  destruct label as [l| |]; try discriminate. simpl. intros H.
  apply Qeq_bool_iff in H. eauto.
Qed.

(** X10.  The update is driven by mistakes: an example whose label equals
    the hypothesis computed for it leaves every weight at its value, for
    finite weights and attributes. *)
Theorem correct_example_keeps_weights
    (self : Linear) (qw qa : list Q) (label : num) :
  weights self = map Fin qw → length qa = length qw →
  neqb label (Fin (inject_Z (hypothesis_for (weights self) (map Fin qa))))
  = true →
  ∃ w', train_example self (map Fin qa ++ [label]) = Ok (with_weights w' self)
        ∧ Forall2 same_num w' (weights self).
Proof.
  intros Hw Hlen Heq.
  rewrite train_example_ok
    by (rewrite length_app, length_map, Hw, length_map; simpl; lia).
  eexists. split; [reflexivity|].
  rewrite but_last_snoc. unfold label_of. rewrite last_snoc. cbn [default].
  destruct (neqb_fin _ _ Heq) as (l & -> & Hl).
  unfold delta_rule. rewrite Hw in *.
  set (h := hypothesis_for (map Fin qw) (map Fin qa)) in *.
  cbn [nsub nopp nadd nmul].
  pose proof (zero_update_same (eta self * (l + - inject_Z h)) qw qa) as H.
  rewrite Hlen, <- (length_map Fin qw), firstn_all in H.
  apply H. rewrite Hl. ring.
Qed.

Lemma correct_example_witness :
  ∃ w', train_example (bare_model (1 # 10) [Fin (-1); Fin (1 # 2)])
          [Fin 1; Fin 3; Fin 1]
        = Ok (with_weights w' (bare_model (1 # 10) [Fin (-1); Fin (1 # 2)]))
        ∧ Forall2 same_num w' [Fin (-1); Fin (1 # 2)].
Proof.
  destruct (correct_example_keeps_weights
              (bare_model (1 # 10) [Fin (-1); Fin (1 # 2)])
              [-1; 1 # 2]%Q [1; 3]%Q (Fin 1)) as (w' & H & Hw).
  - reflexivity.
  - reflexivity.
  - reflexivity.
  - exists w'. split; [exact H | exact Hw].
Defined.

(** ** The split, whatever the fraction *)

Lemma clamp_index_le (i : Z) (n : nat) : (clamp_index i n <= n)%nat.
Proof. unfold clamp_index. destruct (Z.ltb_spec i 0); lia. Qed.

Lemma shuffle_from_entropy {A} (i : nat) : ∀ (w : World) (x : list A),
  os_entropy (shuffle_from i w x).2 = os_entropy w
  ∧ entropy_pos (shuffle_from i w x).2 = entropy_pos w.
Proof.
  induction i as [|i IH]; intros w x; [split; reflexivity|].
  cbn -[swap_rows Nat.modulo].
  split; [now rewrite (proj1 (IH _ _)) | now rewrite (proj2 (IH _ _))].
Qed.

Lemma set_seed_inv (v : pyval) (s s1 : Linear) (w w1 : World) :
  set_seed v s w = Ok (s1, w1) →
  w1 = warn seed_warning w
  ∧ ((isinstance_int v = true ∧ s1 = store_seed v s)
     ∨ (isinstance_int v = false
        ∧ (∃ t, v = PyStr t ∧ str_lower t = "none"%string)
        ∧ s1 = store_seed PyNone s)).
Proof.
  unfold set_seed. destruct (isinstance_int v) eqn:Hi.
  - cbn. intros H. injection H as <- <-. auto.
  - destruct v as [| | |x|t]; try discriminate; cbn [isinstance_str andb].
    destruct (String.eqb_spec (str_lower t) "none"); [|discriminate].
    cbn. intros H. injection H as <- <-. split; [reflexivity|].
    right. eauto.
Qed.

Section SplitFacts.

Variable seeded_doubles : pyval → result (nat → Q).

(** X11.  [initialize] with [shuffle=True] cuts the shuffled rows in two
    for every value of the training fraction, negative or above one
    included: the two subsets are adjacent slices that start at row 0 and
    end at the last row, and no row is lost or taken twice. *)
Theorem split_covers_for_any_fraction
    (self self' : Linear) (w w' : World) :
  initialize seeded_doubles true self w = Ok (self', w') →
  vstart (trainSS self') = 0%nat
  ∧ vstop (trainSS self') = vstart (testSS self')
  ∧ (vstart (testSS self') <= length (norm self'))%nat
  ∧ vstop (testSS self') = length (norm self')
  ∧ read_view (trainSS self') (norm self')
    ++ read_view (testSS self') (norm self') = norm self'
  ∧ norm self' ≡ₚ norm self.
Proof.
  intros Hinit.
  destruct (initialize_inv _ _ _ _ _ _ Hinit) as (g & ws & _ & _ & ->).
  unfold shuffle_and_split.
  pose proof (np_random_shuffle_perm w (norm self)) as Hperm.
  destruct (np_random_shuffle w (norm self)) as [buf w1]. cbn [fst] in *.
  cbn [fst snd with_weights with_split trainSS testSS norm].
  unfold slice_to, slice_from, full_view, view_len, read_view.
  cbn [vstart vstop]. rewrite !Nat.sub_0_r, !Nat.add_0_l, drop_0.
  set (t := clamp_index _ (length buf)).
  assert (t <= length buf)%nat as Ht by apply clamp_index_le.
  unfold view_len. cbn [vstart vstop]. rewrite Nat.sub_0_r.
  rewrite (take_ge (drop t buf)) by (rewrite length_drop; lia).
  rewrite take_drop. repeat split; auto.
Qed.

(** X12.  Changing the training fraction does not move the split: after
    [set_train_subset] and a [reset] without shuffle, the normalized rows
    and the two subsets are those of before, and the global generator has
    not been used. *)
Theorem fraction_change_needs_shuffle
    (fraction : Q) (seed' : pyval) (self s' : Linear) (w w' : World) :
  reset seeded_doubles false seed' (set_train_subset fraction self) w
  = Ok (s', w') →
  training s' = fraction
  ∧ norm s' = norm self
  ∧ trainSS s' = trainSS self ∧ testSS s' = testSS self
  ∧ legacy_pos w' = legacy_pos w.
Proof.
  unfold reset.
  destruct (if truthy seed' then _ else _) as [[s1 w1]|e] eqn:Hseed;
    [|discriminate].
  cbn -[initialize]. intros Hinit.
  assert (training s1 = fraction ∧ norm s1 = norm self
          ∧ trainSS s1 = trainSS self ∧ testSS s1 = testSS self
          ∧ legacy_pos w1 = legacy_pos w) as (H1 & H2 & H3 & H4 & H5).
  { destruct (truthy seed').
    - apply set_seed_inv in Hseed as [-> [[_ ->]|(_ & _ & ->)]];
        repeat split.
    - injection Hseed as <- <-. repeat split. }
  destruct (initialize_inv _ _ _ _ _ _ Hinit) as (g & ws & Hg & _ & ->).
  cbn [fst snd] in *. cbn. repeat split; auto.
  rewrite <- H5. unfold default_rng in Hg. destruct (seed s1).
  - cbn in Hg. destruct (seeded_doubles _); [|discriminate].
    cbn in Hg. now injection Hg as _ <-.
  - destruct (seeded_doubles _); [|discriminate].
    cbn in Hg. now injection Hg as _ <-.
  - destruct (seeded_doubles _); [|discriminate].
    cbn in Hg. now injection Hg as _ <-.
  - destruct (seeded_doubles _); [|discriminate].
    cbn in Hg. now injection Hg as _ <-.
  - destruct (seeded_doubles _); [|discriminate].
    cbn in Hg. now injection Hg as _ <-.
Qed.

End SplitFacts.

Lemma split_covers_witness :
  trainSS negative_fraction_model = {| vstart := 0; vstop := 3 |}
  ∧ testSS negative_fraction_model = {| vstart := 3; vstop := 4 |}
  ∧ read_view (trainSS negative_fraction_model) (norm negative_fraction_model)
    ++ read_view (testSS negative_fraction_model)
         (norm negative_fraction_model)
    = norm negative_fraction_model.
Proof.
  destruct (normalize example_data) as [nrm|e] eqn:Hn;
    vm_compute in Hn; [|discriminate].
  injection Hn as <-.
  match goal with
  | |- _ =>
      destruct (initialize example_doubles true
                  {| training := - (1 # 4); threshold := (9 # 10) * 100;
                     eta := 1 # 10; seed := PyInt 3; max_epochs := 5;
                     verbose := false; data := example_data;
                     norm :=
                       [[Fin 1; Fin (1 # 3); Fin (4 # 4); Fin 0];
                        [Fin 1; Fin (2 # 3); Fin (2 # 4); Fin 1];
                        [Fin 1; Fin (3 # 3); Fin (3 # 4); Fin 1];
                        [Fin 1; Fin (0 # 3); Fin (0 # 4); Fin 0]];
                     shuffled := full_view 0; trainSS := full_view 0;
                     testSS := full_view 0; weights := []; epoch_num := 0;
                     train_accs := []; trainAcc := NaN; trainErr := NaN;
                     testAcc := NaN; testErr := NaN |}
                  (example_world (fun k => k)))
        as [[m w']|e] eqn:Hi
  end.
  - pose proof (split_covers_for_any_fraction _ _ _ _ _ Hi)
      as (_ & _ & _ & _ & Hcat & _).
    assert (negative_fraction_model = m) as ->.
    { vm_compute in Hi. injection Hi as <- _. reflexivity. }
    split; [|split; [|exact Hcat]];
      vm_compute in Hi; injection Hi as <- _; reflexivity.
  - vm_compute in Hi. discriminate.
Defined.

Lemma fraction_change_witness :
  ∃ s' w',
    reset example_doubles false PyNone
      (set_train_subset (1 # 4) (example_model 5))
      (example_world (fun k => k)) = Ok (s', w')
    ∧ training s' = 1 # 4 ∧ trainSS s' = {| vstart := 0; vstop := 3 |}.
Proof.
  destruct (reset example_doubles false PyNone
              (set_train_subset (1 # 4) (example_model 5))
              (example_world (fun k => k))) as [[s' w']|e] eqn:Hr.
  - destruct (fraction_change_needs_shuffle _ _ _ _ _ _ _ Hr)
      as (Hf & _ & Htr & _).
    exists s', w'. split; [reflexivity|]. split; [exact Hf|].
    rewrite Htr. reflexivity.
  - vm_compute in Hr. discriminate.
Defined.

(** ** Setting the seed *)

(** X13.  [set_seed] is all or nothing.  It accepts an [int] (a [bool]
    included) and stores it, or a string that reads none in lower case and
    stores [None]; in both cases it changes the seed only and emits exactly
    one warning.  Every other value raises [ValueError] with the message
    about the seed. *)
Theorem set_seed_outcomes (v : pyval) (self : Linear) (w : World) :
  match set_seed v self w with
  | Ok (s', w') =>
      s' = store_seed (seed s') self
      ∧ warnings w' = warnings w ++ [seed_warning]
      ∧ ((isinstance_int v = true ∧ seed s' = v)
         ∨ ((∃ t, v = PyStr t ∧ str_lower t = "none"%string)
            ∧ seed s' = PyNone))
  | Raise e =>
      e = ValueError seed_error
      ∧ isinstance_int v = false
      ∧ ∀ t, v = PyStr t → str_lower t ≠ "none"%string
  end.
Proof.
  destruct (set_seed v self w) as [[s' w']|e] eqn:H.
  - apply set_seed_inv in H as [-> [[Hi ->]|(Hi & Ht & ->)]].
    + repeat split. now left.
    + repeat split. now right.
  - unfold set_seed in H. destruct (isinstance_int v); [discriminate|].
    destruct v as [| | |x|t]; cbn in H; try (injection H as <-);
      repeat split; try discriminate.
    all: destruct (String.eqb_spec (str_lower t) "none");
      cbn in H; try discriminate.
    + now injection H as <-.
    + intros t' [= <-]. assumption.
Qed.

(** ** The shape of the object, from construction on *)

Lemma rng_random_length (g : nat → Q) (n : Z) (ws : list num) :
  rng_random g n = Ok ws → 0 <= n ∧ length ws = Z.to_nat n.
Proof.
  unfold rng_random. destruct (Z.ltb_spec n 0) as [Hn|Hn]; [discriminate|].
  intros H. injection H as <-. split; [lia|].
  now rewrite length_map, length_seq.
Qed.

Section ShapeFacts.

Variable seeded_doubles : pyval → result (nat → Q).

Lemma initialize_shape (shuffle : bool) (self s' : Linear) (w w' : World)
    (k : nat) :
  Forall (fun row => length row = S k) (norm self) → norm self ≠ [] →
  initialize seeded_doubles shuffle self w = Ok (s', w') →
  length (weights s') = k ∧ well_shaped s' ∧ norm s' ≡ₚ norm self.
Proof.
  intros Hrect Hne Hinit.
  destruct (initialize_inv _ _ _ _ _ _ Hinit) as (g & ws & _ & Hws & ->).
  assert (norm (if shuffle then shuffle_and_split self w else (self, w)).1
          ≡ₚ norm self) as Hperm.
  { destruct shuffle; [|reflexivity]. unfold shuffle_and_split.
    pose proof (np_random_shuffle_perm w (norm self)) as Hp.
    destruct (np_random_shuffle w (norm self)) as [buf w1]. exact Hp. }
  set (s1 := (if shuffle then shuffle_and_split self w else (self, w)).1) in *.
  assert (Forall (fun row => length row = S k) (norm s1)) as Hrect1
    by now rewrite Hperm.
  assert (norm s1 ≠ []) as Hne1.
  { intros E. rewrite E in Hperm. apply Permutation_nil_l in Hperm.
    now symmetry in Hperm. }
  rewrite (shape1_rect (S k) _ Hrect1 Hne1) in Hws.
  apply rng_random_length in Hws as [_ Hlen].
  assert (length ws = k) as Hk by lia.
  split; [exact Hk|]. split; [|exact Hperm].
  unfold well_shaped. cbn [weights norm with_weights]. now rewrite Hk.
Qed.

Lemma init_gives_shape_aux
    (data' : list (list Q)) (k : nat) (train' threshold' lr : Q)
    (seed' : pyval) (max_epochs' : Z) (verbose' : bool) (w w' : World)
    (m : Linear) :
  Forall (fun row => length row = k) data' →
  init seeded_doubles data' train' threshold' lr seed' max_epochs' verbose' w
  = Ok (m, w') →
  length (weights m) = k ∧ well_shaped m
  ∧ length (norm m) = length data' ∧ norm m ≠ []
  ∧ max_epochs m = max_epochs'.
Proof.
  intros Hrect. unfold init.
  destruct (normalize data') as [nrm|e] eqn:Hn; [|discriminate].
  destruct (normalize_rect k data' nrm Hrect Hn) as (Hrows & Hlen & Hne).
  cbn -[initialize]. intros Hinit.
  assert (nrm ≠ []) as Hne'.
  { intros ->. destruct data'; [done|discriminate]. }
  pose proof Hinit as Hshape.
  eapply (initialize_shape true _ _ _ _ k) in Hshape;
    [|exact Hrows|exact Hne'].
  destruct Hshape as (Hk & Hs & Hperm).
  cbn [norm] in Hperm. repeat split; auto.
  - now rewrite Hperm.
  - intros E. rewrite E in Hperm. apply Permutation_nil_l in Hperm.
    now symmetry in Hperm.
  - destruct (initialize_inv _ _ _ _ _ _ Hinit) as (g & ws & _ & _ & ->).
    unfold shuffle_and_split. destruct (np_random_shuffle _ _). reflexivity.
Qed.

(** X14.  Construction on a rectangular array of [k] columns gives the
    object its shape: [k] weights, one for the bias and one for each
    attribute, as many normalized rows as the array has rows, and in every
    row one value per weight and the label. *)
Theorem init_gives_shape
    (data' : list (list Q)) (k : nat) (train' threshold' lr : Q)
    (seed' : pyval) (max_epochs' : Z) (verbose' : bool) (w w' : World)
    (m : Linear) :
  Forall (fun row => length row = k) data' →
  init seeded_doubles data' train' threshold' lr seed' max_epochs' verbose' w
  = Ok (m, w') →
  length (weights m) = k ∧ well_shaped m
  ∧ length (norm m) = length data' ∧ norm m ≠ []
  ∧ max_epochs m = max_epochs'.
Proof. intros Hrect Hinit. eapply init_gives_shape_aux; eassumption. Qed.

(** X15.  [reset] keeps the shape: whatever the seed argument and the
    shuffle flag, the object it returns has as many weights as before, the
    same rows up to their order, and is well shaped again. *)
Theorem reset_keeps_shape
    (shuffle : bool) (seed' : pyval) (self s' : Linear) (w w' : World) :
  well_shaped self → norm self ≠ [] →
  reset seeded_doubles shuffle seed' self w = Ok (s', w') →
  length (weights s') = length (weights self)
  ∧ well_shaped s' ∧ norm s' ≡ₚ norm self.
Proof.
  intros Hs Hne. unfold reset.
  destruct (if truthy seed' then _ else _) as [[s1 w1]|e] eqn:Hseed;
    [|discriminate].
  cbn -[initialize]. intros Hinit.
  assert (norm s1 = norm self) as Hn.
  { destruct (truthy seed').
    - apply set_seed_inv in Hseed as [_ [[_ ->]|(_ & _ & ->)]]; reflexivity.
    - now injection Hseed as <- _. }
  rewrite <- Hn.
  apply (initialize_shape shuffle s1 s' w1 w' (length (weights self)));
    rewrite ?Hn; assumption.
Qed.

Lemma shuffle_and_split_facts (self : Linear) (w : World) :
  seed (shuffle_and_split self w).1 = seed self
  ∧ norm (shuffle_and_split self w).1 ≡ₚ norm self
  ∧ os_entropy (shuffle_and_split self w).2 = os_entropy w
  ∧ entropy_pos (shuffle_and_split self w).2 = entropy_pos w.
Proof.
  unfold shuffle_and_split.
  pose proof (np_random_shuffle_perm w (norm self)) as Hp.
  pose proof (shuffle_from_entropy (length (norm self) - 1) w (norm self))
    as [He Hpos].
  unfold np_random_shuffle in *.
  destruct (shuffle_from _ w (norm self)) as [buf w1]. auto.
Qed.



End ShapeFacts.

Lemma init_gives_shape_witness :
  length (weights (example_model 5)) = 3%nat ∧ well_shaped (example_model 5).
Proof.
  destruct (init example_doubles example_data (3 # 4) (9 # 10) (1 # 10)
              (PyInt 3) 5 false (example_world (fun k => k)))
    as [[m w']|e] eqn:Hinit.
  - destruct (init_gives_shape example_doubles example_data 3 _ _ _ _ _ _ _ _ _
                ltac:(repeat constructor) Hinit) as (Hk & Hs & _).
    assert (example_model 5 = m) as ->; [|auto].
    unfold example_model. now rewrite Hinit.
  - vm_compute in Hinit. discriminate.
Defined.

Lemma reset_keeps_shape_witness :
  ∃ s' w', reset example_doubles true (PyInt 9) (example_model 5)
             (example_world (fun k => k + 1)%nat) = Ok (s', w')
           ∧ length (weights s') = 3%nat ∧ well_shaped s'.
Proof.
  destruct (reset example_doubles true (PyInt 9) (example_model 5)
              (example_world (fun k => k + 1)%nat)) as [[s' w']|e] eqn:Hr.
  - destruct (reset_keeps_shape example_doubles true (PyInt 9)
                (example_model 5) s' (example_world (fun k => k + 1)%nat) w')
      as (Hk & Hs & _).
    + repeat constructor.
    + vm_compute. intros E. discriminate E.
    + exact Hr.
    + exists s', w'. split; [reflexivity|]. split; [exact Hk | exact Hs].
  - vm_compute in Hr. discriminate.
Defined.


(** ** Reseeding *)

Section ReseedFacts.

Variable seeded_doubles : pyval → result (nat → Q).

(** X17.  [reset] with a non-zero integer seed makes the weights a function
    of that seed alone: the seed is stored, one warning is emitted, and the
    new weights are the first doubles of the generator seeded with it, as
    many as there were weights, whatever the object held before. *)
Theorem reset_reseeds_weights
    (shuffle : bool) (z : Z) (self s' : Linear) (w w' : World) :
  z ≠ 0 → well_shaped self → norm self ≠ [] →
  reset seeded_doubles shuffle (PyInt z) self w = Ok (s', w') →
  seed s' = PyInt z
  ∧ warnings w' = warnings w ++ [seed_warning]
  ∧ ∃ g, seeded_doubles (PyInt z) = Ok g
         ∧ weights s'
           = map (fun i => Fin (g i)) (seq 0 (length (weights self))).
Proof.
  intros Hz Hs Hne Hr. rewrite reset_nonzero_int in Hr by exact Hz.
  destruct (initialize_keeps_seed _ _ _ _ _ _ Hr) as [Hseed Hwarn].
  split; [exact Hseed|]. split; [exact Hwarn|].
  destruct (initialize_shape seeded_doubles shuffle
              (store_seed (PyInt z) self) _ _ _
              (length (weights self)) Hs Hne Hr) as (Hk & _ & _).
  destruct (initialize_inv _ _ _ _ _ _ Hr) as (g & ws & Hg & Hws & Hs').
  assert (seed (if shuffle
                then shuffle_and_split (store_seed (PyInt z) self)
                       (warn seed_warning w)
                else (store_seed (PyInt z) self, warn seed_warning w)).1
          = PyInt z) as Hsd.
  { destruct shuffle; [|reflexivity].
    now destruct (shuffle_and_split_facts (store_seed (PyInt z) self)
                    (warn seed_warning w)) as (-> & _). }
  rewrite Hsd in Hg. apply default_rng_seeded in Hg as [Hg _].
  exists g. split; [exact Hg|].
  rewrite Hs' in Hk |- *. cbn [weights with_weights] in *.
  unfold rng_random in Hws. destruct (_ <? 0); [discriminate|].
  injection Hws as <-. rewrite length_map, length_seq in Hk.
  now rewrite Hk.
Qed.

End ReseedFacts.

Lemma reset_reseeds_witness :
  ∃ s' w', reset example_doubles false (PyInt 9) (example_model 5)
             (example_world (fun k => k)) = Ok (s', w')
           ∧ weights s' = [Fin (1 # 11); Fin (1 # 12); Fin (1 # 13)]
           ∧ warnings w' = [seed_warning].
Proof.
  destruct (reset example_doubles false (PyInt 9) (example_model 5)
              (example_world (fun k => k))) as [[s' w']|e] eqn:Hr.
  - destruct (reset_reseeds_weights example_doubles false 9
                (example_model 5) s' (example_world (fun k => k)) w')
      as (_ & Hw & g & Hg & Hws).
    + discriminate.
    + repeat constructor.
    + vm_compute. intros E. discriminate E.
    + exact Hr.
    + exists s', w'. split; [reflexivity|]. split; [|exact Hw].
      rewrite Hws. vm_compute in Hg. injection Hg as <-. reflexivity.
  - vm_compute in Hr. discriminate.
Defined.
